(** * PyDrought: the standardization pipeline and the self-calibration utilities

    A shallow embedding of
    - [calibration/distribution.py]  (the distribution fitters),
    - [indices/meteorological.py]    (SPI and SPEI),
    - [calibration/calibration_utils.py] (calibration by simplex search and
      the incremental parameter update),
    together with the properties of these functions that the specification
    states.

    The numerical libraries the code calls are not part of the repository.
    Their routines appear here in two ways: wrappers whose control flow
    matters (the rolling window of pandas, the support checks around a
    distribution's [cdf] and [ppf], numpy broadcasting) are written out;
    the numerical kernels behind them (maximum-likelihood estimation, the
    incomplete gamma function, the inverse normal CDF, the simplex search,
    least squares) are section variables, so every statement holds for
    whatever those kernels compute. *)

From Stdlib Require Import ZArith QArith Qminmax Lqa Floats.SpecFloat.
From stdpp Require Import base option list strings gmap.

(** ** Python exceptions and results *)

Inductive exn : Set :=
  | ValueError (msg : string)
  | IndexError (msg : string)
  | TypeError (msg : string)
  | KeyError (key : string)
  | FitError (msg : string).

Inductive result (A : Type) : Type :=
  | Ok (a : A)
  | Raise (e : exn).
Arguments Ok {A} a.
Arguments Raise {A} e.

#[global] Instance result_ret : MRet result := fun A a => Ok a.
#[global] Instance result_bind : MBind result := fun A B f m =>
  match m with
  | Ok a => f a
  | Raise e => Raise e
  end.

Definition is_ok {A} (r : result A) : bool :=
  match r with Ok _ => true | Raise _ => false end.

(** ** Series of exact values

    An entry of a series is a finite number or the missing marker (NaN).
    Finite binary64 numbers are rationals, and the arithmetic of this part
    is exact: rounding and infinite entries are outside this model. *)

Definition value : Type := option Q.
Definition NaN : value := None.

Definition Qlt_bool (a b : Q) : bool := negb (Qle_bool b a).

Fixpoint Qsum (l : list Q) : Q :=
  match l with
  | [] => 0%Q
  | x :: l' => (x + Qsum l')%Q
  end.

(** The finite entries of a series, in order ([Series.dropna] keeps exactly
    these). *)
Definition finite_part (l : list value) : list Q := omap id l.
Definition dropna (l : list value) : list value := filter is_Some l.

(** The sum of a window as numpy would add it: missing if an entry is. *)
Definition window_sum (l : list value) : value :=
  if forallb (fun v => bool_decide (is_Some v)) l then Some (Qsum (finite_part l)) else NaN.

(** Equality of entries up to the value of the fraction. *)
Definition value_eq : value -> value -> Prop := option_Forall2 Qeq.

(** ** pandas: [Series.rolling(window).sum()]

    The fixed window ends at [i] and starts [window] entries earlier; the
    running state holds the number of finite observations in the window and
    their sum, entries are added as they enter and removed as they leave,
    and a result needs [minp] observations. [min_periods] defaults to the
    window. *)

Record roll_state : Type := RollState { nobs : Z; sum_x : Q }.

Definition roll_init : roll_state := RollState 0 0.

Definition add_sum (st : roll_state) (val : value) : roll_state :=
  match val with
  | Some x => RollState (nobs st + 1) (sum_x st + x)
  | None => st
  end.

Definition remove_sum (st : roll_state) (val : value) : roll_state :=
  match val with
  | Some x => RollState (nobs st - 1) (sum_x st - x)
  | None => st
  end.

Definition calc_sum (minp : nat) (st : roll_state) : value :=
  if ((nobs st =? 0)%Z && (minp =? 0)%nat)%bool then Some 0%Q
  else if (Z.of_nat minp <=? nobs st)%Z then Some (sum_x st)
  else NaN.

Definition win_start (window i : nat) : nat := i + 1 - window.
Definition win_end (i : nat) : nat := i + 1.

Definition slice (values : list value) (lo hi : nat) : list value :=
  take (hi - lo) (drop lo values).

Definition roll_step (values : list value) (window i : nat) (st : roll_state) : roll_state :=
  let s := win_start window i in
  let e := win_end i in
  if ((i =? 0)%nat || (win_end (i - 1) <=? s)%nat)%bool then
    foldl add_sum roll_init (slice values s e)
  else
    foldl add_sum
      (foldl remove_sum st (slice values (win_start window (i - 1)) s))
      (slice values (win_end (i - 1)) e).

Fixpoint roll_sum_loop (values : list value) (window minp : nat)
    (todo i : nat) (st : roll_state) : list value :=
  match todo with
  | O => []
  | S todo' =>
      let st' := roll_step values window i st in
      calc_sum minp st' :: roll_sum_loop values window minp todo' (S i) st'
  end.

Definition roll_sum (values : list value) (window minp : nat) : list value :=
  roll_sum_loop values window minp (length values) 0 roll_init.

Definition rolling_sum (values : list value) (window : nat) : list value :=
  roll_sum values window window.

(** ** numpy: comparison with a scalar, boolean-mask indexing, subtraction *)

(** [data > 0], entry by entry; a comparison with NaN is false. *)
Definition np_gt0 (data : list value) : list bool :=
  map (fun v => match v with Some q => Qlt_bool 0 q | None => false end) data.

(** [data[mask]]: the entries whose mask bit is set. *)
Fixpoint np_mask (data : list value) (mask : list bool) : list value :=
  match data, mask with
  | v :: data', b :: mask' => if b then v :: np_mask data' mask' else np_mask data' mask'
  | _, _ => []
  end.

Definition value_sub (a b : value) : value :=
  match a, b with
  | Some x, Some y => Some (x - y)%Q
  | _, _ => NaN
  end.

Definition broadcast_error : exn :=
  ValueError "operands could not be broadcast together".

(** [a op b] on one-dimensional arrays, with numpy's broadcasting: equal
    lengths combine entry by entry, an array of length one is stretched,
    anything else is refused. *)
Definition np_binary {A : Type} (op : A -> A -> A) (a b : list A) : result (list A) :=
  if (length a =? length b)%nat then Ok (zip_with op a b)
  else match a, b with
       | [x], _ => Ok (map (op x) b)
       | _, [y] => Ok (map (fun x => op x y) a)
       | _, _ => Raise broadcast_error
       end.

Definition np_subtract : list value -> list value -> result (list value) :=
  np_binary value_sub.

(** ** scipy.stats: estimators and the distribution wrappers *)

Inductive family : Set := Gamma | WeibullMin | LogNorm.

(** Fitted parameters, as the tuple [(shape, loc, scale)]. *)
Definition params : Type := Q * Q * Q.

(** [stats.<family>.fit(data)]: whatever the estimator answers, parameters
    or an exception of its own. *)
Definition mle : Type := family -> list value -> result params.

(** The special functions behind [gamma.cdf] and [norm.ppf]. *)
Record special : Type := Special {
  gammainc : Q -> Q -> Q;  (* regularized lower incomplete gamma: shape, point *)
  ndtri : Q -> Q           (* inverse of the standard normal CDF on (0, 1) *)
}.

(** Computations that may call an estimator: the calls made, in order, and
    the outcome. *)
Inductive call : Type := Fit (d : family) (sample : list value).

Record traced (A : Type) : Type := Traced { calls : list call; outcome : result A }.
Arguments Traced {A} calls outcome.
Arguments calls {A} t.
Arguments outcome {A} t.

#[global] Instance traced_ret : MRet traced := fun A a => Traced [] (Ok a).
#[global] Instance traced_bind : MBind traced := fun A B f m =>
  match outcome m with
  | Ok a => Traced (calls m ++ calls (f a)) (outcome (f a))
  | Raise e => Traced (calls m) (Raise e)
  end.

Definition stats_fit (fit : mle) (d : family) (data : list value) : traced params :=
  Traced [Fit d data] (fit d data).

(** [gamma.cdf(x, a, loc, scale)] at one point: NaN for invalid parameters
    or a NaN argument; otherwise the argument is standardized, and the
    incomplete gamma function is consulted only inside the open support,
    below which the result is 0. *)
Definition gamma_cdf1 (sf : special) (p : params) (x : value) : value :=
  let '(a, loc, scale) := p in
  match x with
  | None => NaN
  | Some x =>
      if (Qlt_bool 0 a && Qlt_bool 0 scale)%bool then
        let y := ((x - loc) / scale)%Q in
        if Qlt_bool 0 y then Some (gammainc sf a y) else Some 0%Q
      else NaN
  end.

Definition gamma_cdf (sf : special) (x : list value) (p : params) : list value :=
  map (gamma_cdf1 sf p) x.

(** Results of [norm.ppf]: beside finite scores and NaN, the two infinities
    that are the bounds of the normal distribution's support. *)
Inductive score : Set :=
  | ScoreNaN
  | NegInf
  | PosInf
  | Finite (z : Q).

(** [norm.ppf(q)] at one point: the lower bound at 0, the upper bound at 1,
    the inverse CDF strictly between, NaN elsewhere. *)
Definition norm_ppf1 (sf : special) (q : value) : score :=
  match q with
  | None => ScoreNaN
  | Some q =>
      if (Qlt_bool 0 q && Qlt_bool q 1)%bool then Finite (ndtri sf q)
      else if Qeq_bool q 0 then NegInf
      else if Qeq_bool q 1 then PosInf
      else ScoreNaN
  end.

Definition norm_ppf (sf : special) (q : list value) : list score :=
  map (norm_ppf1 sf) q.


(** ** calibration/distribution.py *)

Module Distribution.
Section Fitters.
Variable fit : mle.

Definition fit_gamma_distribution (data : list value) : traced params :=
  let data := np_mask data (np_gt0 data) in
  '(shape, loc, scale) ← stats_fit fit Gamma data;
  mret (shape, loc, scale).

Definition fit_weibull_distribution (data : list value) : traced params :=
  let data := np_mask data (np_gt0 data) in
  '(shape, loc, scale) ← stats_fit fit WeibullMin data;
  mret (shape, loc, scale).

Definition fit_log_normal_distribution (data : list value) : traced params :=
  let data := np_mask data (np_gt0 data) in
  '(shape, loc, scale) ← stats_fit fit LogNorm data;
  mret (shape, loc, scale).

Definition unsupported_distribution : exn :=
  ValueError "Unsupported distribution type. Choose 'gamma', 'weibull', or 'lognormal'.".

Definition fit_distribution (data : list value) (distribution_type : string) : traced params :=
  if String.eqb distribution_type "gamma" then fit_gamma_distribution data
  else if String.eqb distribution_type "weibull" then fit_weibull_distribution data
  else if String.eqb distribution_type "lognormal" then fit_log_normal_distribution data
  else Traced [] (Raise unsupported_distribution).

End Fitters.
End Distribution.

(** ** indices/meteorological.py *)

Module Meteorological.
Import Distribution.
Section Indices.
Variable fit : mle.
Variable sf : special.

Definition standardized_precipitation_index
    (precip : list value) (scale : nat) (distribution_params : option params)
    : traced (list score) :=
  let aggregated := rolling_sum precip scale in
  distribution_params ←
    match distribution_params with
    | None => fit_gamma_distribution fit (dropna aggregated)
    | Some p => mret p
    end;
  let cdf_vals := gamma_cdf sf aggregated distribution_params in
  let spi_values := norm_ppf sf cdf_vals in
  mret spi_values.

Definition standardized_precipitation_evapotranspiration_index
    (precip pet : list value) (scale : nat) (distribution_params : option params)
    : traced (list score) :=
  match np_subtract precip pet with
  | Raise e => Traced [] (Raise e)
  | Ok D =>
      let aggregated := rolling_sum D scale in
      distribution_params ←
        match distribution_params with
        | None => fit_gamma_distribution fit (dropna aggregated)
        | Some p => mret p
        end;
      let cdf_vals := gamma_cdf sf aggregated distribution_params in
      let spei_values := norm_ppf sf cdf_vals in
      mret spei_values
  end.

End Indices.
End Meteorological.

(** ** binary64 arithmetic

    The calibration utilities are stated over IEEE 754 binary64 numbers
    with round-to-nearest-even, in the specification of the Standard
    Library. A decimal literal is the correctly rounded quotient of two
    integers that are exact in binary64. *)

Module B64.
Definition prec : Z := 53.
Definition emax : Z := 1024.
Definition float : Set := spec_float.
Definition of_Z (n : Z) : float := binary_normalize prec emax n 0 false.
Definition add : float -> float -> float := SFadd prec emax.
Definition sub : float -> float -> float := SFsub prec emax.
Definition mul : float -> float -> float := SFmul prec emax.
Definition div : float -> float -> float := SFdiv prec emax.
Definition decimal (num den : Z) : float := div (of_Z num) (of_Z den).
Definition nan : float := S754_nan.
End B64.

Definition array : Type := list B64.float.

(** [x[i]] on a sequence. *)
Definition getitem {A : Type} (x : list A) (i : nat) : result A :=
  match x !! i with
  | Some v => Ok v
  | None => Raise (IndexError "index out of bounds")
  end.

(** [d[key]] on a dictionary whose order does not matter. *)
Definition getkey {A : Type} (d : gmap string A) (key : string) : result A :=
  match d !! key with
  | Some v => Ok v
  | None => Raise (KeyError key)
  end.

(** Dictionaries whose iteration order matters: the items in insertion
    order. Assigning to a present key keeps its place. *)
Definition dict : Type := list (string * B64.float).

Fixpoint dict_get (d : dict) (key : string) : result B64.float :=
  match d with
  | [] => Raise (KeyError key)
  | (k, v) :: d' => if String.eqb k key then Ok v else dict_get d' key
  end.

Fixpoint dict_set (d : dict) (key : string) (v : B64.float) : dict :=
  match d with
  | [] => [(key, v)]
  | (k, w) :: d' => if String.eqb k key then (k, v) :: d' else (k, w) :: dict_set d' key v
  end.

Definition dict_keys (d : dict) : list string := map fst d.

(** ** scipy.optimize: a derivative-free search

    A direct search consults the objective at points of its choosing and
    stops with a point; it never fails by itself, and an exception of the
    objective ends it. The search is therefore a finite tree of queries.
    [minimize] evaluates the objective at the initial guess first. *)

Inductive search : Type :=
  | Done (x : array)
  | Query (x : array) (next : B64.float -> search).

Fixpoint run_search (objective : array -> result B64.float) (s : search) : result array :=
  match s with
  | Done x => Ok x
  | Query x next =>
      match objective x with
      | Ok fx => run_search objective (next fx)
      | Raise e => Raise e
      end
  end.

(** A search in dimension [n] asks about and answers points of [n]
    coordinates. *)
Inductive search_dim (n : nat) : search -> Prop :=
  | search_dim_done x : length x = n -> search_dim n (Done x)
  | search_dim_query x next :
      length x = n -> (forall fx, search_dim n (next fx)) -> search_dim n (Query x next).

(** ** calibration/calibration_utils.py *)

Module CalibrationUtils.
Section Calibration.
(** [np.sum] of an array; the order of the additions is numpy's. *)
Variable np_sum : array -> B64.float.
(** The Nelder-Mead search once the objective's value at the initial guess
    is known. *)
Variable nelder_mead : array -> B64.float -> search.
(** [LinearRegression().fit(X, y).coef_]. *)
Variable linear_regression_coef : list array -> array -> result array.

Definition minimize (objective : array -> result B64.float) (x0 : array) : result array :=
  run_search objective (Query x0 (nelder_mead x0)).

Definition square (a : array) : array := map (fun x => B64.mul x x) a.
Definition scale_by (c : B64.float) (a : array) : array := map (B64.mul c) a.

Definition self_calibrated_pdsi (data : gmap string array) (initial_parameters : gmap string B64.float)
    : result (array * gmap string B64.float) :=
  target_pdsi ← getkey data "target_pdsi";
  precip ← getkey data "precip";
  temp ← getkey data "temp";
  soil_moisture ← getkey data "soil_moisture";
  let pdsi_model (a b c : B64.float) : result array :=
    ab ← np_binary B64.add (scale_by a precip) (scale_by b temp);
    np_binary B64.add ab (scale_by c soil_moisture) in
  let objective (params : array) : result B64.float :=
    match params with
    | [a; b; c] =>
        model_pdsi ← pdsi_model a b c;
        residual ← np_binary B64.sub model_pdsi target_pdsi;
        mret (np_sum (square residual))
    | _ => Raise (ValueError "cannot unpack params into a, b, c")
    end in
  let init_params :=
    [ default (B64.of_Z 1) (initial_parameters !! "a");
      default (B64.of_Z 1) (initial_parameters !! "b");
      default (B64.of_Z 1) (initial_parameters !! "c") ] in
  calibrated_params ← minimize objective init_params;
  match calibrated_params with
  | [a; b; c] =>
      calibrated_pdsi ← pdsi_model a b c;
      mret (calibrated_pdsi, <["c" := c]> (<["b" := b]> (<["a" := a]> ∅)))
  | _ => Raise (ValueError "cannot unpack calibrated_params into a, b, c")
  end.

Section Generic.
Context {X : Type}.

(** An index function is called as [index_function(input_data, a=a, b=b)]. *)
Definition index_fn : Type := X -> B64.float -> B64.float -> result array.

Record calibration_data : Type := CalibrationData {
  observed : array;
  input_data : X
}.

(** [index_function(input_data, **params)]. *)
Definition call_with_kwargs (index_function : index_fn) (input : X)
    (kw : gmap string B64.float) : result array :=
  match kw !! "a", kw !! "b" with
  | Some a, Some b =>
      if bool_decide (dom kw = {["a"; "b"]}) then index_function input a b
      else Raise (TypeError "unexpected keyword argument")
  | _, _ => Raise (TypeError "missing keyword argument")
  end.

Definition calibrate_index (index_function : index_fn) (cd : calibration_data)
    (kwargs : gmap string B64.float) : result (gmap string B64.float * array) :=
  let observed := observed cd in
  let input_data := input_data cd in
  let objective (params : array) : result B64.float :=
    match params with
    | [a; b] =>
        modeled ← index_function input_data a b;
        residual ← np_binary B64.sub modeled observed;
        mret (np_sum (square residual))
    | _ => Raise (ValueError "cannot unpack params into a, b")
    end in
  x ← minimize objective [B64.of_Z 1; B64.of_Z 1];
  x0 ← getitem x 0;
  x1 ← getitem x 1;
  let best_params : gmap string B64.float := <["b" := x1]> (<["a" := x0]> ∅) in
  calibrated_index ← call_with_kwargs index_function input_data best_params;
  mret (best_params, calibrated_index).

End Generic.

Record new_data : Type := NewData {
  input : list array;
  new_observed : array
}.

Definition weight_old : B64.float := B64.decimal 7 10.
Definition weight_new : B64.float := B64.decimal 3 10.

(** The loop over [enumerate(old_params.keys())]. *)
Fixpoint update_loop (old_params : dict) (new_params : array) (i : nat)
    (keys : list string) (updated_params : dict) : result dict :=
  match keys with
  | [] => Ok updated_params
  | key :: keys' =>
      old ← dict_get old_params key;
      new ← getitem new_params i;
      update_loop old_params new_params (S i) keys'
        (dict_set updated_params key (B64.add (B64.mul weight_old old) (B64.mul weight_new new)))
  end.

Definition update_calibration_parameters (old_params : dict) (nd : new_data) : result dict :=
  let X_new := input nd in
  let y_new := new_observed nd in
  new_params ← linear_regression_coef X_new y_new;
  update_loop old_params new_params 0 (dict_keys old_params) [].

End Calibration.
End CalibrationUtils.

(** * Properties of the rolling sum *)

(** The running state describes a window when it holds the number of the
    window's finite entries and their sum. *)
Definition summarises (st : roll_state) (w : list value) : Prop :=
  nobs st = Z.of_nat (length (finite_part w)) /\ (sum_x st == Qsum (finite_part w))%Q.

Lemma Qsum_app (l1 l2 : list Q) : (Qsum (l1 ++ l2) == Qsum l1 + Qsum l2)%Q.
Proof.
  induction l1 as [|x l1 IH]; simpl.
  - ring.
  - rewrite IH. ring.
Qed.

Lemma finite_part_app (l1 l2 : list value) :
  finite_part (l1 ++ l2) = finite_part l1 ++ finite_part l2.
Proof. apply omap_app. Qed.

Lemma length_finite_part (w : list value) : length (finite_part w) <= length w.
Proof.
  induction w as [|[q|] w IH]; simpl; lia.
Qed.

Lemma finite_part_all (w : list value) :
  forallb (fun v => bool_decide (is_Some v)) w = true ->
  length (finite_part w) = length w.
Proof.
  induction w as [|[q|] w IH]; simpl; intros H; try done.
  f_equal. apply IH. exact H.
Qed.

Lemma finite_part_some_missing (w : list value) :
  forallb (fun v => bool_decide (is_Some v)) w = false ->
  length (finite_part w) < length w.
Proof.
  induction w as [|[q|] w IH]; simpl; intros H; try done.
  - apply IH in H. lia.
  - pose proof (length_finite_part w). lia.
Qed.

Lemma summarises_nil : summarises roll_init [].
Proof. split; reflexivity. Qed.

Lemma add_sum_snoc (st : roll_state) (w : list value) (v : value) :
  summarises st w -> summarises (add_sum st v) (w ++ [v]).
Proof.
  intros [Hn Hs]. unfold summarises. rewrite finite_part_app.
  destruct v as [x|]; simpl.
  - rewrite length_app, Qsum_app, Hn, Hs. simpl. split; [lia | ring].
  - rewrite app_nil_r. done.
Qed.

Lemma foldl_add_sum (entering : list value) :
  forall st w, summarises st w -> summarises (foldl add_sum st entering) (w ++ entering).
Proof.
  induction entering as [|v l IH]; intros st w H; simpl.
  - by rewrite app_nil_r.
  - replace (w ++ v :: l) with ((w ++ [v]) ++ l) by (by rewrite <- app_assoc).
    apply IH, add_sum_snoc, H.
Qed.

Lemma remove_sum_cons (st : roll_state) (v : value) (w : list value) :
  summarises st (v :: w) -> summarises (remove_sum st v) w.
Proof.
  intros [Hn Hs]. destruct v as [x|]; simpl in *.
  - split; simpl; [lia | rewrite Hs; ring].
  - done.
Qed.

Lemma foldl_remove_sum (leaving : list value) :
  forall st w, summarises st (leaving ++ w) -> summarises (foldl remove_sum st leaving) w.
Proof.
  induction leaving as [|v l IH]; intros st w H; simpl.
  - exact H.
  - apply IH, remove_sum_cons, H.
Qed.

Lemma slice_app (l : list value) (a b c : nat) :
  a <= b <= c -> slice l a c = slice l a b ++ slice l b c.
Proof.
  intros [Hab Hbc]. unfold slice.
  replace (c - a) with ((b - a) + (c - b)) by lia.
  rewrite <- take_take_drop, drop_drop.
  by replace (a + (b - a)) with b by lia.
Qed.

Lemma length_slice (l : list value) (a b : nat) :
  b <= length l -> length (slice l a b) = b - a.
Proof.
  intros H. unfold slice. rewrite length_take, length_drop. lia.
Qed.

(** One step of the loop re-establishes the description for the window
    that ends at [i]. *)
Lemma roll_step_summarises (values : list value) (window i : nat) (st : roll_state) :
  i = 0 \/ summarises st (slice values (win_start window (i - 1)) (win_end (i - 1))) ->
  summarises (roll_step values window i st) (slice values (win_start window i) (win_end i)).
Proof.
  intros Hprev. unfold roll_step.
  destruct ((i =? 0)%nat || (win_end (i - 1) <=? win_start window i)%nat)%bool eqn:E.
  - apply (foldl_add_sum _ roll_init []), summarises_nil.
  - apply orb_false_iff in E as [E1 E2].
    apply Nat.eqb_neq in E1. apply Nat.leb_gt in E2.
    destruct Hprev as [->|Hprev]; [done|].
    unfold win_start, win_end in *.
    rewrite (slice_app values (i - 1 + 1 - window) (i + 1 - window) (i - 1 + 1)) in Hprev by lia.
    apply foldl_remove_sum in Hprev.
    apply (foldl_add_sum (slice values (i - 1 + 1) (i + 1))) in Hprev.
    rewrite <- slice_app in Hprev by lia. exact Hprev.
Qed.

Lemma length_roll_sum_loop (values : list value) (window minp todo : nat) :
  forall i st, length (roll_sum_loop values window minp todo i st) = todo.
Proof.
  induction todo as [|todo IH]; intros i st; simpl; [done|].
  by rewrite IH.
Qed.

Lemma roll_sum_loop_lookup (values : list value) (window minp todo : nat) :
  forall i st,
    i = 0 \/ summarises st (slice values (win_start window (i - 1)) (win_end (i - 1))) ->
    forall j, j < todo ->
    exists st', summarises st' (slice values (win_start window (i + j)) (win_end (i + j))) /\
                roll_sum_loop values window minp todo i st !! j = Some (calc_sum minp st').
Proof.
  induction todo as [|todo IH]; intros i st Hprev j Hj; [lia|].
  pose proof (roll_step_summarises values window i st Hprev) as Hstep.
  destruct j as [|j]; simpl.
  - exists (roll_step values window i st). by rewrite Nat.add_0_r.
  - replace (i + S j) with (S i + j) by lia.
    apply IH; [|lia]. right. simpl. by rewrite Nat.sub_0_r.
Qed.

(** What [calc_sum] answers for a window that is still filling up, and for
    a full one. *)
Lemma calc_sum_short (st : roll_state) (w : list value) (minp : nat) :
  summarises st w -> length w < minp -> calc_sum minp st = NaN.
Proof.
  intros [Hn _] Hlen. pose proof (length_finite_part w) as Hle.
  unfold calc_sum.
  replace (minp =? 0)%nat with false by (symmetry; apply Nat.eqb_neq; lia).
  rewrite andb_false_r.
  by replace (Z.of_nat minp <=? nobs st)%Z with false by (symmetry; apply Z.leb_gt; lia).
Qed.

Lemma calc_sum_full (st : roll_state) (w : list value) (minp : nat) :
  summarises st w -> 1 <= minp -> length w = minp ->
  value_eq (calc_sum minp st) (window_sum w).
Proof.
  intros [Hn Hs] Hpos Hlen. unfold calc_sum, window_sum.
  replace (minp =? 0)%nat with false by (symmetry; apply Nat.eqb_neq; lia).
  rewrite andb_false_r.
  destruct (forallb (fun v => bool_decide (is_Some v)) w) eqn:E.
  - apply finite_part_all in E.
    replace (Z.of_nat minp <=? nobs st)%Z with true by (symmetry; apply Z.leb_le; lia).
    by constructor.
  - apply finite_part_some_missing in E.
    replace (Z.of_nat minp <=? nobs st)%Z with false by (symmetry; apply Z.leb_gt; lia).
    constructor.
Qed.

Lemma length_rolling_sum (values : list value) (window : nat) :
  length (rolling_sum values window) = length values.
Proof. apply length_roll_sum_loop. Qed.

Lemma rolling_sum_warm_up (values : list value) (window i : nat) :
  i < length values -> i + 1 < window -> rolling_sum values window !! i = Some NaN.
Proof.
  intros Hi Hw.
  destruct (roll_sum_loop_lookup values window window (length values) 0 roll_init
              (or_introl eq_refl) i Hi) as (st & Hst & Hlook).
  unfold rolling_sum, roll_sum. rewrite Hlook. f_equal.
  apply (calc_sum_short st _ window Hst).
  rewrite length_slice by (unfold win_end; lia). unfold win_start, win_end. lia.
Qed.

Lemma rolling_sum_window (values : list value) (window i : nat) :
  1 <= window -> window <= i + 1 -> i < length values ->
  exists v, rolling_sum values window !! i = Some v /\
            value_eq v (window_sum (slice values (i + 1 - window) (i + 1))).
Proof.
  intros Hpos Hw Hi.
  destruct (roll_sum_loop_lookup values window window (length values) 0 roll_init
              (or_introl eq_refl) i Hi) as (st & Hst & Hlook).
  exists (calc_sum window st). split; [exact Hlook|].
  apply (calc_sum_full st _ window Hst Hpos).
  rewrite length_slice by (unfold win_end; lia). unfold win_start, win_end. lia.
Qed.

(** * Properties of the fitters and of the standardized indices *)

(** Stand-ins for the numerical kernels, used to run the functions on
    concrete inputs: an estimator that always answers the same parameters,
    one that always fails, and special functions with the right ranges. *)
Definition constant_mle (p : params) : mle := fun _ _ => Ok p.
Definition failing_mle : mle := fun _ _ => Raise (FitError "no fit").
Definition toy_special : special :=
  Special (fun _ y => (y / (1 + y))%Q) (fun q => (2 * q - 1)%Q).

Definition is_positive (v : value) : bool :=
  match v with Some q => Qlt_bool 0 q | None => false end.

Module DistributionFacts.
Import Distribution.

Lemma np_mask_gt0 (data : list value) :
  np_mask data (np_gt0 data) = List.filter is_positive data.
Proof.
  induction data as [|v data IH]; simpl; [done|].
  unfold is_positive at 1. destruct v as [q|]; simpl.
  - destruct (Qlt_bool 0 q); by rewrite IH.
  - exact IH.
Qed.

Lemma Qlt_bool_iff (a b : Q) : Qlt_bool a b = true <-> (a < b)%Q.
Proof.
  unfold Qlt_bool. rewrite negb_true_iff.
  split; intros H.
  - apply Qnot_le_lt. intros Hle. apply Qle_bool_iff in Hle. congruence.
  - destruct (Qle_bool b a) eqn:E; [|done].
    apply Qle_bool_iff in E. exfalso. by apply (Qlt_not_le a b).
Qed.


Lemma stats_fit_unpack (fit : mle) (d : family) (sample : list value) :
  (stats_fit fit d sample ≫= fun '(shape, loc, scale) => mret (shape, loc, scale))
  = Traced [Fit d sample] (fit d sample).
Proof.
  unfold mbind, traced_bind, stats_fit; simpl.
  destruct (fit d sample) as [[[shape loc] scale]|e]; by simpl.
Qed.

Lemma fit_gamma_distribution_eq (fit : mle) (data : list value) :
  fit_gamma_distribution fit data
  = Traced [Fit Gamma (List.filter is_positive data)] (fit Gamma (List.filter is_positive data)).
Proof. unfold fit_gamma_distribution. by rewrite stats_fit_unpack, np_mask_gt0. Qed.






(** C9: [fit_distribution] routes the three family names to their fitters,
    and for any other name raises the unsupported-distribution error
    without consulting any estimator. *)
Theorem fit_distribution_dispatch (fit : mle) (data : list value) (distribution_type : string) :
  fit_distribution fit data "gamma" = fit_gamma_distribution fit data /\
  fit_distribution fit data "weibull" = fit_weibull_distribution fit data /\
  fit_distribution fit data "lognormal" = fit_log_normal_distribution fit data /\
  (distribution_type <> "gamma" -> distribution_type <> "weibull" ->
   distribution_type <> "lognormal" ->
   fit_distribution fit data distribution_type = Traced [] (Raise unsupported_distribution)).
Proof.
  repeat split; try reflexivity.
  intros Hg Hw Hl. unfold fit_distribution.
  apply String.eqb_neq in Hg, Hw, Hl. by rewrite Hg, Hw, Hl.
Qed.

Lemma fit_distribution_dispatch_witness :
  fit_distribution failing_mle [Some 1%Q; Some 2%Q] "foo"
  = Traced [] (Raise unsupported_distribution).
Proof.
  apply (fit_distribution_dispatch failing_mle [Some 1%Q; Some 2%Q] "foo"); done.
Defined.

End DistributionFacts.

Module MeteorologicalFacts.
Import Distribution Meteorological DistributionFacts.

Lemma spi_supplied (fit : mle) (sf : special) (precip : list value) (scale : nat) (p : params) :
  standardized_precipitation_index fit sf precip scale (Some p)
  = Traced [] (Ok (norm_ppf sf (gamma_cdf sf (rolling_sum precip scale) p))).
Proof. reflexivity. Qed.

Lemma spi_fitted (fit : mle) (sf : special) (precip : list value) (scale : nat) :
  let aggregated := rolling_sum precip scale in
  let sample := List.filter is_positive (dropna aggregated) in
  standardized_precipitation_index fit sf precip scale None
  = Traced [Fit Gamma sample]
      (match fit Gamma sample with
       | Ok p => Ok (norm_ppf sf (gamma_cdf sf aggregated p))
       | Raise e => Raise e
       end).
Proof.
  intros aggregated sample. unfold standardized_precipitation_index.
  fold aggregated. rewrite fit_gamma_distribution_eq. fold sample.
  unfold mbind, traced_bind; simpl.
  destruct (fit Gamma sample) as [p|e]; by simpl.
Qed.


Lemma spi_values_lookup (sf : special) (aggregated : list value) (p : params) (i : nat) :
  norm_ppf sf (gamma_cdf sf aggregated p) !! i
  = (fun x => norm_ppf1 sf (gamma_cdf1 sf p x)) <$> aggregated !! i.
Proof.
  unfold norm_ppf, gamma_cdf.
  change (map (norm_ppf1 sf) (map (gamma_cdf1 sf p) aggregated))
    with (norm_ppf1 sf <$> (gamma_cdf1 sf p <$> aggregated)).
  rewrite !list_lookup_fmap. by destruct (aggregated !! i).
Qed.








Lemma norm_ppf1_cases (sf : special) (q : Q) :
  ((q == 0)%Q -> norm_ppf1 sf (Some q) = NegInf) /\
  ((q == 1)%Q -> norm_ppf1 sf (Some q) = PosInf) /\
  ((0 < q)%Q -> (q < 1)%Q -> norm_ppf1 sf (Some q) = Finite (ndtri sf q)).
Proof.
  unfold norm_ppf1. repeat split.
  - intros H. destruct (Qlt_bool 0 q) eqn:E0.
    + apply Qlt_bool_iff in E0. rewrite H in E0. by apply Qlt_irrefl in E0.
    + simpl. by apply Qeq_bool_iff in H as ->.
  - intros H. destruct (Qlt_bool q 1) eqn:E1.
    + apply Qlt_bool_iff in E1. rewrite H in E1. by apply Qlt_irrefl in E1.
    + rewrite andb_false_r.
      destruct (Qeq_bool q 0) eqn:E0.
      * apply Qeq_bool_iff in E0. rewrite E0 in H. discriminate H.
      * by apply Qeq_bool_iff in H as ->.
  - intros H0 H1. apply Qlt_bool_iff in H0 as ->. by apply Qlt_bool_iff in H1 as ->.
Qed.



(** C5: for precipitation and evapotranspiration series of equal length,
    [standardized_precipitation_evapotranspiration_index] is
    [standardized_precipitation_index] run on the entrywise difference, with
    the same scale and parameters: the same estimator calls and the same
    outcome. *)
Theorem spei_is_spi_of_water_balance (fit : mle) (sf : special) (precip pet : list value)
    (scale : nat) (distribution_params : option params) :
  length precip = length pet ->
  standardized_precipitation_evapotranspiration_index fit sf precip pet scale distribution_params
  = standardized_precipitation_index fit sf (zip_with value_sub precip pet) scale
      distribution_params.
Proof.
  intros Hlen.
  unfold standardized_precipitation_evapotranspiration_index, np_subtract, np_binary.
  apply Nat.eqb_eq in Hlen. by rewrite Hlen.
Qed.

Lemma spei_is_spi_of_water_balance_witness :
  standardized_precipitation_evapotranspiration_index (constant_mle (2, 0, 1)%Q) toy_special
    [Some 5%Q; Some 7%Q; NaN] [Some 2%Q; Some 9%Q; Some 1%Q] 2 None
  = standardized_precipitation_index (constant_mle (2, 0, 1)%Q) toy_special
      (zip_with value_sub [Some 5%Q; Some 7%Q; NaN] [Some 2%Q; Some 9%Q; Some 1%Q]) 2 None.
Proof.
  apply (spei_is_spi_of_water_balance (constant_mle (2, 0, 1)%Q) toy_special
           [Some 5%Q; Some 7%Q; NaN] [Some 2%Q; Some 9%Q; Some 1%Q] 2 None).
  reflexivity.
Defined.

End MeteorologicalFacts.

(** * Properties of the calibration utilities *)

(** A search is dimension preserving when, started from a guess of [n]
    coordinates, it asks about and answers points of [n] coordinates. *)
Definition dimension_preserving (nelder_mead : array -> B64.float -> search) : Prop :=
  forall x0 fx, search_dim (length x0) (nelder_mead x0 fx).

(** Stand-ins used to run the utilities on concrete inputs: a search that
    stops at once, one that looks at a second point and keeps the better
    one, a summation from left to right, a regression that answers given
    coefficients, and a linear index function. *)
Definition stop_at_once : array -> B64.float -> search := fun x0 _ => Done x0.
Definition try_doubling : array -> B64.float -> search := fun x0 fx0 =>
  let x1 := map (B64.mul (B64.of_Z 2)) x0 in
  Query x1 (fun fx1 => if SFltb fx1 fx0 then Done x1 else Done x0).
Definition sum_left_to_right (a : array) : B64.float := foldl B64.add (B64.of_Z 0) a.
Definition constant_regression (coef : array) : list array -> array -> result array :=
  fun _ _ => Ok coef.
Definition linear_index (input : array) (a b : B64.float) : result array :=
  Ok (map (fun x => B64.add (B64.mul a x) b) input).

Module CalibrationFacts.
Import CalibrationUtils.

Lemma np_binary_same_length {A : Type} (op : A -> A -> A) (a b : list A) :
  length a = length b -> np_binary op a b = Ok (zip_with op a b).
Proof. intros H. unfold np_binary. apply Nat.eqb_eq in H. by rewrite H. Qed.

Lemma np_binary_mismatch {A : Type} (op : A -> A -> A) (a b : list A) :
  length a <> length b -> length a <> 1 -> length b <> 1 ->
  np_binary op a b = Raise broadcast_error.
Proof.
  intros Hab Ha Hb. unfold np_binary. apply Nat.eqb_neq in Hab. rewrite Hab.
  destruct a as [|x [|x' a]], b as [|y [|y' b]]; simpl in *; done.
Qed.

Lemma run_search_total (objective : array -> result B64.float) (n : nat) (s : search) :
  search_dim n s ->
  (forall x, length x = n -> exists fx, objective x = Ok fx) ->
  exists x, run_search objective s = Ok x /\ length x = n.
Proof.
  intros Hdim Hobj. induction Hdim as [x Hx|x next Hx _ IH]; simpl.
  - by exists x.
  - destruct (Hobj x Hx) as [fx ->]. apply IH.
Qed.

Lemma minimize_total (nelder_mead : array -> B64.float -> search)
    (objective : array -> result B64.float) (x0 : array) :
  dimension_preserving nelder_mead ->
  (forall x, length x = length x0 -> exists fx, objective x = Ok fx) ->
  exists x, minimize nelder_mead objective x0 = Ok x /\ length x = length x0.
Proof.
  intros Hnm Hobj. unfold minimize.
  apply run_search_total; [|exact Hobj].
  by constructor.
Qed.

Lemma minimize_first_evaluation (nelder_mead : array -> B64.float -> search)
    (objective : array -> result B64.float) (x0 : array) (e : exn) :
  objective x0 = Raise e -> minimize nelder_mead objective x0 = Raise e.
Proof. intros H. unfold minimize. simpl. by rewrite H. Qed.

Section CalibrateIndex.
Context {X : Type}.
Variable np_sum : array -> B64.float.
Variable nelder_mead : array -> B64.float -> search.
Variable index_function : @index_fn X.
Variable cd : @calibration_data X.
Variable kwargs : gmap string B64.float.

Lemma call_with_best_params (a b : B64.float) :
  call_with_kwargs index_function (input_data cd) (<["b" := b]> (<["a" := a]> ∅))
  = index_function (input_data cd) a b.
Proof.
  unfold call_with_kwargs.
  rewrite lookup_insert_ne by done. rewrite !lookup_insert_eq.
  rewrite bool_decide_eq_true_2; [done|].
  rewrite !dom_insert_L, dom_empty_L. set_solver.
Qed.

(** The steps of [calibrate_index] after a successful search. *)
Lemma calibrate_index_after_search (x : array) :
  minimize nelder_mead
    (fun params =>
       match params with
       | [a; b] =>
           modeled ← index_function (input_data cd) a b;
           residual ← np_binary B64.sub modeled (observed cd);
           mret (np_sum (square residual))
       | _ => Raise (ValueError "cannot unpack params into a, b")
       end) [B64.of_Z 1; B64.of_Z 1] = Ok x ->
  calibrate_index np_sum nelder_mead index_function cd kwargs
  = (x0 ← getitem x 0; x1 ← getitem x 1;
     calibrated_index ← index_function (input_data cd) x0 x1;
     mret (<["b" := x1]> (<["a" := x0]> ∅), calibrated_index)).
Proof.
  intros Hmin. unfold calibrate_index. rewrite Hmin. simpl.
  destruct (getitem x 0) as [x0|e]; simpl; [|done].
  destruct (getitem x 1) as [x1|e]; simpl; [|done].
  by rewrite call_with_best_params.
Qed.

Lemma calibrate_index_inv (best_params : gmap string B64.float) (calibrated_index : array) :
  calibrate_index np_sum nelder_mead index_function cd kwargs
  = Ok (best_params, calibrated_index) ->
  exists a b,
    best_params = <["b" := b]> (<["a" := a]> ∅) /\
    index_function (input_data cd) a b = Ok calibrated_index.
Proof.
  unfold calibrate_index.
  destruct (minimize _ _ _) as [x|e]; simpl; [|done].
  destruct (getitem x 0) as [x0|e]; simpl; [|done].
  destruct (getitem x 1) as [x1|e]; simpl; [|done].
  rewrite call_with_best_params.
  destruct (index_function (input_data cd) x0 x1) as [ci|e] eqn:E; simpl; [|done].
  intros [= <- <-]. by exists x0, x1.
Qed.

(** When the model answers, for every pair of coefficients, a series as
    long as the observed one, the calibration returns a result. *)
Lemma calibrate_index_returns :
  dimension_preserving nelder_mead ->
  (forall a b, exists modeled,
      index_function (input_data cd) a b = Ok modeled /\
      length modeled = length (observed cd)) ->
  exists a b calibrated_index,
    calibrate_index np_sum nelder_mead index_function cd kwargs
    = Ok (<["b" := b]> (<["a" := a]> ∅), calibrated_index) /\
    index_function (input_data cd) a b = Ok calibrated_index.
Proof.
  intros Hnm Hmodel.
  edestruct (minimize_total nelder_mead) as (x & Hmin & Hlen); [exact Hnm| |].
  2: { rewrite (calibrate_index_after_search x Hmin).
       destruct x as [|x0 [|x1 [|x2 x]]]; try done. simpl.
       destruct (Hmodel x0 x1) as (ci & Hci & _). rewrite Hci. simpl.
       by exists x0, x1, ci. }
  intros [|a [|b [|c x]]] Hx; try done.
  destruct (Hmodel a b) as (modeled & -> & Hlen). simpl.
  rewrite np_binary_same_length by done. simpl. by eexists.
Qed.

(** When the series the model answers at the initial guess cannot be
    broadcast against the observed one, the first evaluation of the
    objective raises, and the search ends with that exception. *)
Lemma calibrate_index_mismatch (modeled : array) :
  index_function (input_data cd) (B64.of_Z 1) (B64.of_Z 1) = Ok modeled ->
  length modeled <> length (observed cd) ->
  length modeled <> 1 -> length (observed cd) <> 1 ->
  calibrate_index np_sum nelder_mead index_function cd kwargs = Raise broadcast_error.
Proof.
  intros Hmodel Hne H1 H2. unfold calibrate_index.
  rewrite (minimize_first_evaluation _ _ _ broadcast_error); [done|].
  rewrite Hmodel. simpl. by rewrite np_binary_mismatch.
Qed.

End CalibrateIndex.

Lemma getkey_Some {A : Type} (d : gmap string A) (key : string) (v : A) :
  d !! key = Some v -> getkey d key = Ok v.
Proof. intros H. unfold getkey. by rewrite H. Qed.

Lemma length_scale_by (c : B64.float) (a : array) : length (scale_by c a) = length a.
Proof. apply length_map. Qed.

(** When the four series have one length, empty or not,
    [self_calibrated_pdsi] returns a result. *)
Lemma self_calibrated_pdsi_returns (np_sum : array -> B64.float)
    (nelder_mead : array -> B64.float -> search)
    (data : gmap string array) (initial_parameters : gmap string B64.float)
    (target_pdsi precip temp soil_moisture : array) :
  dimension_preserving nelder_mead ->
  data !! "target_pdsi" = Some target_pdsi ->
  data !! "precip" = Some precip ->
  data !! "temp" = Some temp ->
  data !! "soil_moisture" = Some soil_moisture ->
  length precip = length target_pdsi ->
  length temp = length target_pdsi ->
  length soil_moisture = length target_pdsi ->
  exists calibrated_pdsi a b c,
    self_calibrated_pdsi np_sum nelder_mead data initial_parameters
    = Ok (calibrated_pdsi, <["c" := c]> (<["b" := b]> (<["a" := a]> ∅))) /\
    length calibrated_pdsi = length target_pdsi.
Proof.
  intros Hnm Ht Hp Htemp Hs Lp Ltemp Ls. unfold self_calibrated_pdsi.
  rewrite (getkey_Some _ _ _ Ht), (getkey_Some _ _ _ Hp),
    (getkey_Some _ _ _ Htemp), (getkey_Some _ _ _ Hs). simpl.
  assert (Hmodel : forall a b c,
    (np_binary B64.add (scale_by a precip) (scale_by b temp) ≫=
       fun ab => np_binary B64.add ab (scale_by c soil_moisture))
    = Ok (zip_with B64.add (zip_with B64.add (scale_by a precip) (scale_by b temp))
            (scale_by c soil_moisture))).
  { intros a b c.
    rewrite np_binary_same_length by (rewrite !length_scale_by; lia). simpl.
    rewrite np_binary_same_length; [done|].
    rewrite length_zip_with, !length_scale_by. lia. }
  assert (Hlen : forall a b c,
    length (zip_with B64.add (zip_with B64.add (scale_by a precip) (scale_by b temp))
              (scale_by c soil_moisture)) = length target_pdsi).
  { intros a b c. rewrite !length_zip_with, !length_scale_by. lia. }
  edestruct (minimize_total nelder_mead) as (x & Hmin & Hx); [exact Hnm| |].
  2: { rewrite Hmin. simpl. destruct x as [|a [|b [|c [|d x]]]]; try done.
       rewrite Hmodel. simpl. by eexists _, a, b, c. }
  intros [|a [|b [|c [|d x]]]] Hx; try done.
  rewrite Hmodel. simpl. rewrite np_binary_same_length by (by rewrite Hlen).
  simpl. by eexists.
Qed.

(** The reading of the specification's validation rule, at its weakest:
    on a degenerate input the calibration ends with an exception. *)
Definition rejects_input {X : Type} (np_sum : array -> B64.float)
    (nelder_mead : array -> B64.float -> search) (index_function : @index_fn X)
    (cd : @calibration_data X) : Prop :=
  exists e, calibrate_index np_sum nelder_mead index_function cd ∅ = Raise e.

(** C7, as stated, fails: on an empty observed series (with empty input
    data and a linear index function) no summation and no dimension
    preserving search makes [calibrate_index] end with an exception. *)
Lemma calibrate_empty_series_counterexample :
  ~ exists np_sum nelder_mead,
      dimension_preserving nelder_mead /\
      rejects_input np_sum nelder_mead linear_index (CalibrationData [] []).
Proof.
  intros (np_sum & nelder_mead & Hnm & e & He).
  destruct (calibrate_index_returns np_sum nelder_mead linear_index
              (CalibrationData [] []) ∅ Hnm) as (a & b & ci & Hok & _).
  - intros a b. by exists [].
  - rewrite Hok in He. discriminate He.
Qed.

(** C7, amended: neither operation validates its input. With a dimension
    preserving search, [calibrate_index] returns a result whenever the
    model answers, for every coefficient pair, a series as long as the
    observed one (an empty series and a series of NaN included), and
    [self_calibrated_pdsi] returns a result whenever its four series have
    one length (zero included); when the modelled and observed series
    cannot be broadcast together, [calibrate_index] ends with numpy's
    broadcasting error, raised by the first evaluation of the objective
    inside the search. *)
Theorem calibration_without_validation {X : Type} (np_sum : array -> B64.float)
    (nelder_mead : array -> B64.float -> search) (index_function : @index_fn X)
    (cd : @calibration_data X) (kwargs : gmap string B64.float)
    (data : gmap string array) (initial_parameters : gmap string B64.float) :
  dimension_preserving nelder_mead ->
  ((forall a b, exists modeled,
       index_function (input_data cd) a b = Ok modeled /\
       length modeled = length (observed cd)) ->
   exists a b calibrated_index,
     calibrate_index np_sum nelder_mead index_function cd kwargs
     = Ok (<["b" := b]> (<["a" := a]> ∅), calibrated_index) /\
     index_function (input_data cd) a b = Ok calibrated_index) /\
  (forall modeled,
     index_function (input_data cd) (B64.of_Z 1) (B64.of_Z 1) = Ok modeled ->
     length modeled <> length (observed cd) ->
     length modeled <> 1 -> length (observed cd) <> 1 ->
     calibrate_index np_sum nelder_mead index_function cd kwargs = Raise broadcast_error) /\
  (forall target_pdsi precip temp soil_moisture,
     data !! "target_pdsi" = Some target_pdsi ->
     data !! "precip" = Some precip ->
     data !! "temp" = Some temp ->
     data !! "soil_moisture" = Some soil_moisture ->
     length precip = length target_pdsi ->
     length temp = length target_pdsi ->
     length soil_moisture = length target_pdsi ->
     exists calibrated_pdsi a b c,
       self_calibrated_pdsi np_sum nelder_mead data initial_parameters
       = Ok (calibrated_pdsi, <["c" := c]> (<["b" := b]> (<["a" := a]> ∅))) /\
       length calibrated_pdsi = length target_pdsi).
Proof.
  intros Hnm. split; [|split].
  - by apply calibrate_index_returns.
  - intros modeled. apply calibrate_index_mismatch.
  - intros target_pdsi precip temp soil_moisture. by apply self_calibrated_pdsi_returns.
Qed.

Lemma try_doubling_dimension_preserving : dimension_preserving try_doubling.
Proof.
  intros x0 fx. unfold try_doubling. constructor.
  - apply length_map.
  - intros fx1. destruct (SFltb fx1 fx); constructor; [apply length_map | done].
Qed.

(** A model whose denominator is zero everywhere: [a * x / 0 + b]. *)
Definition zero_denominator_index (input : array) (a b : B64.float) : result array :=
  Ok (map (fun x => B64.add (B64.div (B64.mul a x) (B64.of_Z 0)) b) input).

Lemma calibration_without_validation_witness :
  (exists a b calibrated_index,
     calibrate_index sum_left_to_right try_doubling zero_denominator_index
       (CalibrationData [B64.of_Z 3; B64.of_Z 4] [B64.of_Z 0; B64.of_Z 0]) ∅
     = Ok (<["b" := b]> (<["a" := a]> ∅), calibrated_index) /\
     zero_denominator_index [B64.of_Z 0; B64.of_Z 0] a b = Ok calibrated_index) /\
  calibrate_index sum_left_to_right try_doubling linear_index
    (CalibrationData [B64.of_Z 3; B64.of_Z 4; B64.of_Z 5] [B64.of_Z 1; B64.of_Z 2]) ∅
  = Raise broadcast_error.
Proof.
  pose proof (calibration_without_validation sum_left_to_right try_doubling
                zero_denominator_index
                (CalibrationData [B64.of_Z 3; B64.of_Z 4] [B64.of_Z 0; B64.of_Z 0]) ∅ ∅ ∅
                try_doubling_dimension_preserving) as (Hret & _ & _).
  pose proof (calibration_without_validation sum_left_to_right try_doubling
                linear_index
                (CalibrationData [B64.of_Z 3; B64.of_Z 4; B64.of_Z 5] [B64.of_Z 1; B64.of_Z 2])
                ∅ ∅ ∅ try_doubling_dimension_preserving) as (_ & Hmis & _).
  split.
  - apply Hret. intros a b. eexists. split; [reflexivity|]. simpl. reflexivity.
  - apply (Hmis [B64.add (B64.mul (B64.of_Z 1) (B64.of_Z 1)) (B64.of_Z 1);
                 B64.add (B64.mul (B64.of_Z 1) (B64.of_Z 2)) (B64.of_Z 1)]);
      [reflexivity | simpl; lia | simpl; lia | simpl; lia].
Defined.

(** C10: whenever [calibrate_index] returns, whatever the index function
    and the extra keyword arguments, the returned dictionary has exactly
    the keys 'a' and 'b', and the returned series is what the index
    function answers on the input data at those two coefficients. *)
Theorem calibrate_index_result_consistent {X : Type} (np_sum : array -> B64.float)
    (nelder_mead : array -> B64.float -> search) (index_function : @index_fn X)
    (cd : @calibration_data X) (kwargs : gmap string B64.float)
    (best_params : gmap string B64.float) (calibrated_index : array) :
  calibrate_index np_sum nelder_mead index_function cd kwargs
  = Ok (best_params, calibrated_index) ->
  dom best_params = {["a"; "b"]} /\
  exists a b,
    best_params !! "a" = Some a /\ best_params !! "b" = Some b /\
    index_function (input_data cd) a b = Ok calibrated_index.
Proof.
  intros H. apply calibrate_index_inv in H as (a & b & -> & Hindex).
  split.
  - rewrite !dom_insert_L, dom_empty_L. set_solver.
  - exists a, b. rewrite lookup_insert_ne by done. by rewrite !lookup_insert_eq.
Qed.

Lemma calibrate_index_result_consistent_witness :
  dom (<["b" := B64.of_Z 2]> (<["a" := B64.of_Z 2]> (∅ : gmap string B64.float)))
  = {["a"; "b"]} /\
  exists a b,
    (<["b" := B64.of_Z 2]> (<["a" := B64.of_Z 2]> (∅ : gmap string B64.float))) !! "a" = Some a /\
    (<["b" := B64.of_Z 2]> (<["a" := B64.of_Z 2]> (∅ : gmap string B64.float))) !! "b" = Some b /\
    linear_index [B64.of_Z 1; B64.of_Z 2] a b = Ok [B64.of_Z 4; B64.of_Z 6].
Proof.
  apply (calibrate_index_result_consistent sum_left_to_right try_doubling linear_index
           (CalibrationData [B64.of_Z 3; B64.of_Z 5] [B64.of_Z 1; B64.of_Z 2])
           {["verbose" := B64.of_Z 1]}).
  vm_compute. reflexivity.
Defined.

(** ** The incremental update *)

(** The blend of one old value with one new coefficient, as the loop
    computes it: two rounded products and a rounded sum. *)
Definition blend (item : string * B64.float) (new : B64.float) : string * B64.float :=
  (item.1, B64.add (B64.mul weight_old item.2) (B64.mul weight_new new)).

Lemma getitem_cases {A : Type} (x : list A) (i : nat) :
  (exists v, x !! i = Some v /\ getitem x i = Ok v) \/
  (length x <= i /\ getitem x i = Raise (IndexError "index out of bounds")).
Proof.
  unfold getitem. destruct (x !! i) as [v|] eqn:E.
  - left. by exists v.
  - right. split; [|done]. by apply lookup_ge_None.
Qed.

Lemma dict_get_fresh (done : dict) (key : string) (v : B64.float) (rest : dict) :
  key ∉ dict_keys done -> dict_get (done ++ (key, v) :: rest) key = Ok v.
Proof.
  induction done as [|[k w] done IH]; simpl; intros Hfresh.
  - by rewrite String.eqb_refl.
  - apply not_elem_of_cons in Hfresh as [Hne Hfresh].
    replace (k =? key)%string with false
      by (symmetry; apply String.eqb_neq; congruence).
    by apply IH.
Qed.

Lemma dict_set_fresh (d : dict) (key : string) (v : B64.float) :
  key ∉ dict_keys d -> dict_set d key v = d ++ [(key, v)].
Proof.
  induction d as [|[k w] d IH]; simpl; intros Hfresh; [done|].
  apply not_elem_of_cons in Hfresh as [Hne Hfresh].
  replace (k =? key)%string with false
    by (symmetry; apply String.eqb_neq; congruence).
  by rewrite IH.
Qed.

Lemma dict_keys_app (d1 d2 : dict) : dict_keys (d1 ++ d2) = dict_keys d1 ++ dict_keys d2.
Proof. apply map_app. Qed.

Lemma head_key_fresh (done : dict) (key : string) (v : B64.float) (rest : dict) :
  NoDup (dict_keys (done ++ (key, v) :: rest)) -> key ∉ dict_keys done.
Proof.
  rewrite dict_keys_app. simpl. intros Hnd Hin.
  apply NoDup_app in Hnd as (_ & Hdisj & _).
  apply (Hdisj key Hin). by left.
Qed.

Lemma update_loop_enough (new_params : array) (rest : dict) :
  forall (done updated : dict) (i : nat),
    NoDup (dict_keys (done ++ rest)) ->
    dict_keys updated = dict_keys done ->
    i + length rest <= length new_params ->
    update_loop (done ++ rest) new_params i (dict_keys rest) updated
    = Ok (updated ++ zip_with blend rest (drop i new_params)).
Proof.
  induction rest as [|[key v] rest IH]; intros done updated i Hnd Hkeys Hlen; simpl.
  - by rewrite app_nil_r.
  - pose proof (head_key_fresh _ _ _ _ Hnd) as Hfresh.
    rewrite dict_get_fresh by done. simpl in Hlen.
    destruct (getitem_cases new_params i) as [(c & Hc & Hget)|[Hge Hget]]; [|lia].
    rewrite Hget. simpl.
    rewrite dict_set_fresh by (by rewrite Hkeys).
    rewrite (drop_S _ _ _ Hc). simpl.
    replace (done ++ (key, v) :: rest) with ((done ++ [(key, v)]) ++ rest) in *
      by (by rewrite <- app_assoc).
    rewrite IH.
    + by rewrite <- app_assoc.
    + exact Hnd.
    + by rewrite !dict_keys_app, Hkeys.
    + lia.
Qed.

Lemma update_loop_short (new_params : array) (rest : dict) :
  forall (done updated : dict) (i : nat),
    NoDup (dict_keys (done ++ rest)) ->
    dict_keys updated = dict_keys done ->
    i <= length new_params ->
    length new_params < i + length rest ->
    update_loop (done ++ rest) new_params i (dict_keys rest) updated
    = Raise (IndexError "index out of bounds").
Proof.
  induction rest as [|[key v] rest IH]; intros done updated i Hnd Hkeys Hi Hlen; simpl in *.
  - lia.
  - pose proof (head_key_fresh _ _ _ _ Hnd) as Hfresh.
    rewrite dict_get_fresh by done.
    destruct (getitem_cases new_params i) as [(c & Hc & Hget)|[Hge Hget]];
      [|by rewrite Hget].
    rewrite Hget. simpl.
    apply lookup_lt_Some in Hc.
    rewrite dict_set_fresh by (by rewrite Hkeys).
    replace (done ++ (key, v) :: rest) with ((done ++ [(key, v)]) ++ rest) in *
      by (by rewrite <- app_assoc).
    apply IH.
    + exact Hnd.
    + by rewrite !dict_keys_app, Hkeys.
    + lia.
    + lia.
Qed.

Section Update.
Variable linear_regression_coef : list array -> array -> result array.
Variable old_params : dict.
Variable nd : new_data.
Variable new_params : array.
Hypothesis old_params_is_dict : NoDup (dict_keys old_params).
Hypothesis regression : linear_regression_coef (input nd) (new_observed nd) = Ok new_params.

Lemma update_enough_coefficients :
  length old_params <= length new_params ->
  update_calibration_parameters linear_regression_coef old_params nd
  = Ok (zip_with blend old_params new_params).
Proof using old_params_is_dict regression.
  intros Hlen. unfold update_calibration_parameters. rewrite regression. simpl.
  rewrite <- (drop_0 new_params) at 2.
  by apply (update_loop_enough new_params old_params [] [] 0).
Qed.

Lemma update_too_few_coefficients :
  length new_params < length old_params ->
  update_calibration_parameters linear_regression_coef old_params nd
  = Raise (IndexError "index out of bounds").
Proof using old_params_is_dict regression.
  intros Hlen. unfold update_calibration_parameters. rewrite regression. simpl.
  apply (update_loop_short new_params old_params [] [] 0); try done.
  lia.
Qed.

End Update.

Lemma dict_keys_blend (old_params : dict) (new_params : array) :
  length old_params <= length new_params ->
  dict_keys (zip_with blend old_params new_params) = dict_keys old_params.
Proof.
  revert new_params. induction old_params as [|[k v] old IH]; intros [|c new] Hlen;
    simpl in *; try done; try lia.
  f_equal. apply IH. lia.
Qed.

(** C6, as stated, fails: blending the old value 1.0 with the new
    coefficient 2.0 does not give the binary64 number 1.3, for any
    regression that answers the coefficient 2.0. *)
Lemma update_exact_decimal_counterexample :
  ~ exists linear_regression_coef nd,
      linear_regression_coef (input nd) (new_observed nd) = Ok [B64.of_Z 2] /\
      update_calibration_parameters linear_regression_coef [("a", B64.of_Z 1)] nd
      = Ok [("a", B64.decimal 13 10)].
Proof.
  intros (lr & nd & Hreg & Hup).
  rewrite (update_enough_coefficients lr [("a", B64.of_Z 1)] nd [B64.of_Z 2]) in Hup;
    [|apply NoDup_singleton|exact Hreg|simpl; lia].
  vm_compute in Hup. discriminate Hup.
Qed.

(** C6, amended: when the regression answers at least as many coefficients
    as there are old keys, the update returns the old keys in their order,
    the value at the i-th key being the binary64 sum of the two binary64
    products 0.7 * old and 0.3 * new for the i-th coefficient. For the old
    value 1.0 and the coefficient 2.0 this sum is 5854679515581644 * 2^-52
    (1.2999999999999998), the binary64 number just below the one that the
    literal 1.3 denotes. *)
Theorem update_blends_in_binary64 (linear_regression_coef : list array -> array -> result array)
    (old_params : dict) (nd : new_data) (new_params : array) :
  NoDup (dict_keys old_params) ->
  linear_regression_coef (input nd) (new_observed nd) = Ok new_params ->
  length old_params <= length new_params ->
  exists updated,
    update_calibration_parameters linear_regression_coef old_params nd = Ok updated /\
    dict_keys updated = dict_keys old_params /\
    (forall i key old new,
       old_params !! i = Some (key, old) -> new_params !! i = Some new ->
       updated !! i = Some (key, B64.add (B64.mul weight_old old) (B64.mul weight_new new))) /\
    (old_params = [("a", B64.of_Z 1)] -> new_params !! 0 = Some (B64.of_Z 2) ->
       updated = [("a", S754_finite false 5854679515581644 (-52))] /\
       B64.decimal 13 10 = S754_finite false 5854679515581645 (-52)).
Proof.
  intros Hnd Hreg Hlen. exists (zip_with blend old_params new_params).
  split; [by apply update_enough_coefficients|].
  split; [by apply dict_keys_blend|]. split.
  - intros i key old new Hold Hnew. unfold dict, array in *.
    rewrite lookup_zip_with, Hold. simpl. by rewrite Hnew.
  - intros -> Hnew. destruct new_params as [|c new_params]; [done|].
    simpl in Hnew. injection Hnew as ->. split; reflexivity.
Qed.

Lemma update_blends_in_binary64_witness :
  exists updated,
    update_calibration_parameters (constant_regression [B64.of_Z 2]) [("a", B64.of_Z 1)]
      (NewData [[B64.of_Z 1]; [B64.of_Z 2]] [B64.of_Z 2; B64.of_Z 4]) = Ok updated /\
    dict_keys updated = dict_keys [("a", B64.of_Z 1)] /\
    (forall i key old new,
       [("a", B64.of_Z 1)] !! i = Some (key, old) -> [B64.of_Z 2] !! i = Some new ->
       updated !! i = Some (key, B64.add (B64.mul weight_old old) (B64.mul weight_new new))) /\
    ([("a", B64.of_Z 1)] = [("a", B64.of_Z 1)] -> [B64.of_Z 2] !! 0 = Some (B64.of_Z 2) ->
       updated = [("a", S754_finite false 5854679515581644 (-52))] /\
       B64.decimal 13 10 = S754_finite false 5854679515581645 (-52)).
Proof.
  apply (update_blends_in_binary64 (constant_regression [B64.of_Z 2]) [("a", B64.of_Z 1)]
           (NewData [[B64.of_Z 1]; [B64.of_Z 2]] [B64.of_Z 2; B64.of_Z 4]) [B64.of_Z 2]).
  - apply NoDup_singleton.
  - reflexivity.
  - simpl. lia.
Defined.

(** C8, as stated, fails: with one old key and two new coefficients the
    counts differ, yet the update ends with no exception, for any
    regression that answers those two coefficients. *)
Lemma update_surplus_coefficients_counterexample :
  ~ exists linear_regression_coef nd,
      linear_regression_coef (input nd) (new_observed nd) = Ok [B64.of_Z 2; B64.of_Z 3] /\
      exists e,
        update_calibration_parameters linear_regression_coef [("a", B64.of_Z 1)] nd = Raise e.
Proof.
  intros (lr & nd & Hreg & e & Hup).
  rewrite (update_enough_coefficients lr [("a", B64.of_Z 1)] nd [B64.of_Z 2; B64.of_Z 3])
    in Hup; [|apply NoDup_singleton|exact Hreg|simpl; lia].
  discriminate Hup.
Qed.

(** C8, amended: the update compares no keys, the new coefficients being
    matched to the old keys by position. With at least as many coefficients
    as old keys it returns a parameter set over exactly the old keys, in
    their order, and ignores the surplus coefficients; with fewer it fails
    with an index error. *)
Theorem update_matches_by_position (linear_regression_coef : list array -> array -> result array)
    (old_params : dict) (nd : new_data) (new_params : array) :
  NoDup (dict_keys old_params) ->
  linear_regression_coef (input nd) (new_observed nd) = Ok new_params ->
  (length old_params <= length new_params ->
   exists updated,
     update_calibration_parameters linear_regression_coef old_params nd = Ok updated /\
     dict_keys updated = dict_keys old_params /\
     updated = zip_with blend old_params (take (length old_params) new_params)) /\
  (length new_params < length old_params ->
   update_calibration_parameters linear_regression_coef old_params nd
   = Raise (IndexError "index out of bounds")).
Proof.
  intros Hnd Hreg. split; intros Hlen.
  - exists (zip_with blend old_params new_params).
    split; [by apply update_enough_coefficients|].
    split; [by apply dict_keys_blend|].
    clear Hnd Hreg. revert new_params Hlen.
    induction old_params as [|item old IH]; intros [|c new] Hlen; simpl in *;
      try done; try lia.
    f_equal. apply IH. lia.
  - by apply (update_too_few_coefficients _ _ _ new_params).
Qed.

Lemma update_matches_by_position_witness :
  (exists updated,
     update_calibration_parameters (constant_regression [B64.of_Z 2; B64.of_Z 3; B64.of_Z 4])
       [("a", B64.of_Z 1); ("b", B64.of_Z 5)] (NewData [] []) = Ok updated /\
     dict_keys updated = dict_keys [("a", B64.of_Z 1); ("b", B64.of_Z 5)] /\
     updated = zip_with blend [("a", B64.of_Z 1); ("b", B64.of_Z 5)]
                 (take 2 [B64.of_Z 2; B64.of_Z 3; B64.of_Z 4])) /\
  update_calibration_parameters (constant_regression [B64.of_Z 2])
    [("a", B64.of_Z 1); ("b", B64.of_Z 5)] (NewData [] [])
  = Raise (IndexError "index out of bounds").
Proof.
  split.
  - apply (update_matches_by_position (constant_regression [B64.of_Z 2; B64.of_Z 3; B64.of_Z 4])
             [("a", B64.of_Z 1); ("b", B64.of_Z 5)] (NewData [] [])
             [B64.of_Z 2; B64.of_Z 3; B64.of_Z 4]).
    + apply (bool_decide_unpack _). reflexivity.
    + reflexivity.
    + simpl. lia.
  - apply (update_matches_by_position (constant_regression [B64.of_Z 2])
             [("a", B64.of_Z 1); ("b", B64.of_Z 5)] (NewData [] []) [B64.of_Z 2]).
    + apply (bool_decide_unpack _). reflexivity.
    + reflexivity.
    + simpl. lia.
Defined.

End CalibrationFacts.

(** * Further functions of indices/meteorological.py *)

(** numpy combines two one-dimensional arrays of any entry types with the
    broadcasting of [np_binary]. *)
Definition np_broadcast2 {A B C : Type} (op : A -> B -> C) (a : list A) (b : list B)
    : result (list C) :=
  if (length a =? length b)%nat then Ok (zip_with op a b)
  else match a, b with
       | [x], _ => Ok (map (op x) b)
       | _, [y] => Ok (map (fun x => op x y) a)
       | _, _ => Raise broadcast_error
       end.

(** True division of finite or missing operands: the quotient of a finite
    number by zero is an infinity, or NaN for 0/0. Zero carries no sign in
    this model. *)
Definition np_divide1 (a b : value) : score :=
  match a, b with
  | Some x, Some y =>
      if Qeq_bool y 0 then
        (if Qlt_bool 0 x then PosInf else if Qlt_bool x 0 then NegInf else ScoreNaN)
      else Finite (x / y)
  | _, _ => ScoreNaN
  end.

Definition value_mul (a b : value) : value :=
  match a, b with
  | Some x, Some y => Some (x * y)%Q
  | _, _ => NaN
  end.



(** [np.mean]: the sum over the count, NaN as soon as an entry is NaN, and
    NaN for the empty array. *)
Definition np_mean (a : list value) : value :=
  match window_sum a with
  | Some s => if (length a =? 0)%nat then NaN else Some (s / inject_Z (Z.of_nat (length a)))%Q
  | None => NaN
  end.

(** Python's [max(0, x)]: [x] when [x > 0] holds, else [0]; the comparison
    with NaN is false. *)
Definition py_max0 (x : value) : value :=
  match x with
  | Some q => if Qlt_bool 0 q then Some q else Some 0%Q
  | None => Some 0%Q
  end.

Module MeteorologicalSimple.
Section Simple.
(** The square root behind [np.std]. *)
Variable np_sqrt : Q -> Q.

(** [np.std]: the root of the mean of the squared deviations from the mean. *)
Definition np_std (a : list value) : value :=
  match np_mean a with
  | Some m =>
      match np_mean (map (fun v => value_mul (value_sub v (Some m)) (value_sub v (Some m))) a) with
      | Some var => Some (np_sqrt var)
      | None => NaN
      end
  | None => NaN
  end.


Fixpoint keetch_byram_loop (rainfall_series : list value) (sm : value) : list value :=
  match rainfall_series with
  | [] => []
  | rain :: rest =>
      let sm := py_max0 (value_sub sm rain) in
      sm :: keetch_byram_loop rest sm
  end.

Definition keetch_byram_index (rainfall_series : list value) (initial_sm : value) : list value :=
  keetch_byram_loop rainfall_series initial_sm.

Definition weighted_anomaly_standardized_precipitation (data weights : list value)
    : result (list score) :=
  weighted_anomaly ← np_broadcast2 value_mul data weights;
  let mean_val := np_mean weighted_anomaly in
  let std_val := np_std weighted_anomaly in
  mret (map (fun w => np_divide1 (value_sub w mean_val) std_val) weighted_anomaly).

End Simple.
End MeteorologicalSimple.

Module MeteorologicalSimpleFacts.
Import MeteorologicalSimple DistributionFacts.

(** ** The Keetch-Byram loop *)

Definition Qmax0 (q : Q) : Q := if Qlt_bool 0 q then q else 0%Q.

Lemma Qmax0_nonneg (q : Q) : (0 <= Qmax0 q)%Q.
Proof.
  unfold Qmax0. destruct (Qlt_bool 0 q) eqn:E; [|lra].
  apply Qlt_bool_iff in E. lra.
Qed.


Lemma py_max0_finite (q : Q) : py_max0 (Some q) = Some (Qmax0 q).
Proof. unfold py_max0, Qmax0. by destruct (Qlt_bool 0 q). Qed.

Lemma py_max0_nonneg (x : value) : exists q, py_max0 x = Some q /\ (0 <= q)%Q.
Proof.
  destruct x as [q|].
  - exists (Qmax0 q). split; [apply py_max0_finite | apply Qmax0_nonneg].
  - exists 0%Q. split; [done | lra].
Qed.


(** Each entry is computed from the entry before it and the rain of its
    own day. *)
Lemma keetch_byram_step (rainfall_series : list value) :
  forall sm k prev rain,
    keetch_byram_loop rainfall_series sm !! k = Some prev ->
    rainfall_series !! S k = Some rain ->
    keetch_byram_loop rainfall_series sm !! S k = Some (py_max0 (value_sub prev rain)).
Proof.
  induction rainfall_series as [|r0 rest IH]; intros sm k prev rain Hprev Hrain; [done|].
  destruct k as [|k]; simpl in *.
  - injection Hprev as <-. destruct rest as [|r1 rest]; [done|].
    simpl in *. by injection Hrain as <-.
  - by apply IH.
Qed.

Lemma keetch_byram_entry (rainfall_series : list value) :
  forall sm k v,
    keetch_byram_loop rainfall_series sm !! k = Some v ->
    exists x, v = py_max0 x.
Proof.
  induction rainfall_series as [|r0 rest IH]; intros sm k v Hv; [done|].
  destruct k as [|k]; simpl in *.
  - injection Hv as <-. by eexists.
  - exact (IH _ k v Hv).
Qed.


(** A day whose rainfall is missing gets the index 0, whatever the soil
    moisture before it; so does the first day when the initial soil
    moisture is missing. *)
Theorem keetch_byram_missing_rain_gives_zero (rainfall_series : list value)
    (initial_sm : value) (k : nat) :
  (rainfall_series !! k = Some NaN ->
   keetch_byram_index rainfall_series initial_sm !! k = Some (Some 0%Q)) /\
  (initial_sm = NaN -> rainfall_series <> [] ->
   keetch_byram_index rainfall_series initial_sm !! 0 = Some (Some 0%Q)).
Proof.
  unfold keetch_byram_index. split.
  - revert initial_sm k.
    induction rainfall_series as [|r0 rest IH]; intros sm k Hk; [done|].
    destruct k as [|k]; simpl in *.
    + injection Hk as ->. by destruct sm.
    + by apply IH.
  - intros -> Hne. destruct rainfall_series as [|r0 rest]; [done|]. reflexivity.
Qed.

Lemma keetch_byram_missing_rain_gives_zero_witness :
  keetch_byram_index [Some 3%Q; NaN; Some 1%Q] (Some 10%Q) !! 1 = Some (Some 0%Q) /\
  keetch_byram_index [Some 3%Q; NaN; Some 1%Q] NaN !! 0 = Some (Some 0%Q).
Proof.
  split.
  - by apply (keetch_byram_missing_rain_gives_zero [Some 3%Q; NaN; Some 1%Q] (Some 10%Q) 1).
  - by apply (keetch_byram_missing_rain_gives_zero [Some 3%Q; NaN; Some 1%Q] NaN 0).
Defined.

(** On a day with rainfall that is not negative the index does not rise. *)
Theorem keetch_byram_non_increasing (rainfall_series : list value) (initial_sm : value)
    (k : nat) (before after rain : Q) :
  keetch_byram_index rainfall_series initial_sm !! k = Some (Some before) ->
  keetch_byram_index rainfall_series initial_sm !! S k = Some (Some after) ->
  rainfall_series !! S k = Some (Some rain) ->
  (0 <= rain)%Q ->
  (after <= before)%Q.
Proof.
  unfold keetch_byram_index. intros Hb Ha Hrain Hpos.
  pose proof (keetch_byram_step _ _ _ _ _ Hb Hrain) as Hstep.
  assert (Ha' : Some (py_max0 (value_sub (Some before) (Some rain))) = Some (Some after))
    by (etrans; [symmetry; exact Hstep | exact Ha]).
  clear Ha Hstep. injection Ha' as Ha.
  apply keetch_byram_entry in Hb as [x Hx].
  destruct (py_max0_nonneg x) as (q & Hq & Hq0).
  rewrite Hq in Hx. injection Hx as ->.
  destruct (Qlt_bool 0 (q - rain)); injection Ha as <-; lra.
Qed.

Lemma keetch_byram_non_increasing_witness : (0 + 7 - 3 - 2 <= 0 + 7 - 3)%Q.
Proof.
  apply (keetch_byram_non_increasing [Some 3%Q; Some 2%Q; Some 9%Q] (Some (0 + 7)%Q) 0
           (0 + 7 - 3)%Q (0 + 7 - 3 - 2)%Q 2%Q); try reflexivity.
  lra.
Defined.







(** ** The aridity index *)












(** ** The weighted standardized anomaly *)


Lemma window_sum_missing (l : list value) (i : nat) :
  l !! i = Some NaN -> window_sum l = NaN.
Proof.
  intros Hi. unfold window_sum.
  match goal with
  | |- context [forallb ?f l] => destruct (forallb f l) eqn:Hall; [|done]
  end.
  exfalso.
  rewrite forallb_forall in Hall.
  apply list_elem_of_lookup_2, list_elem_of_In in Hi. by apply Hall in Hi.
Qed.


Lemma np_mean_missing (l : list value) (i : nat) : l !! i = Some NaN -> np_mean l = NaN.
Proof. intros Hi. unfold np_mean. by rewrite (window_sum_missing l i). Qed.




(** A stand-in for the square root (one Newton step from 1), and the
    standard deviation it gives on the weighted series [2; 4; 6]. *)
Definition rough_sqrt (v : Q) : Q := ((v + 1) / 2)%Q.


(** One missing value, in the data or in the weights, makes every entry
    of the result NaN: [np.mean] does not skip missing values. *)
Theorem weighted_anomaly_missing_poisons (np_sqrt : Q -> Q) (data weights : list value)
    (i : nat) :
  length data = length weights ->
  data !! i = Some NaN \/ weights !! i = Some NaN ->
  exists out,
    weighted_anomaly_standardized_precipitation np_sqrt data weights = Ok out /\
    length out = length data /\
    Forall (fun z => z = ScoreNaN) out.
Proof.
  intros Hlen Hmiss.
  unfold weighted_anomaly_standardized_precipitation, np_broadcast2.
  apply Nat.eqb_eq in Hlen as Heq. rewrite Heq. simpl.
  set (weighted := zip_with value_mul data weights).
  assert (Hi : weighted !! i = Some NaN).
  { subst weighted. unfold value in *. rewrite lookup_zip_with.
    destruct Hmiss as [Hd|Hw].
    - rewrite Hd. simpl.
      destruct (lookup_lt_is_Some_2 weights i) as [w ->]; [|done].
      apply lookup_lt_Some in Hd. lia.
    - rewrite Hw.
      destruct (lookup_lt_is_Some_2 data i) as [d ->]; [|by destruct d].
      apply lookup_lt_Some in Hw. lia. }
  rewrite (np_mean_missing weighted i Hi).
  eexists. split; [reflexivity|]. split.
  - subst weighted. rewrite length_map, length_zip_with. lia.
  - apply Forall_forall. intros z Hz.
    apply list_elem_of_In, in_map_iff in Hz as (w & <- & _). by destruct w.
Qed.

Lemma weighted_anomaly_missing_poisons_witness :
  exists out,
    weighted_anomaly_standardized_precipitation rough_sqrt
      [Some 1%Q; NaN; Some 3%Q] [Some 2%Q; Some 2%Q; Some 2%Q] = Ok out /\
    length out = 3 /\
    Forall (fun z => z = ScoreNaN) out.
Proof.
  apply (weighted_anomaly_missing_poisons rough_sqrt
           [Some 1%Q; NaN; Some 3%Q] [Some 2%Q; Some 2%Q; Some 2%Q] 1); [done|by left].
Defined.

End MeteorologicalSimpleFacts.

(** * Further properties of the standardized indices *)

Module StandardizedIndexFacts.
Import Distribution Meteorological DistributionFacts MeteorologicalFacts.

Lemma spi_outcome_ok (fit : mle) (sf : special) (precip : list value) (scale : nat)
    (distribution_params : option params) (out : list score) :
  outcome (standardized_precipitation_index fit sf precip scale distribution_params) = Ok out ->
  exists p, out = norm_ppf sf (gamma_cdf sf (rolling_sum precip scale) p).
Proof.
  destruct distribution_params as [p|].
  - rewrite spi_supplied. simpl. intros [= <-]. by exists p.
  - rewrite spi_fitted. simpl.
    destruct (fit Gamma _) as [p|e]; [|done]. intros [= <-]. by exists p.
Qed.

Lemma score_of_missing (sf : special) (p : params) :
  norm_ppf1 sf (gamma_cdf1 sf p NaN) = ScoreNaN.
Proof. by destruct p as [[a loc] s]. Qed.

Lemma slice_lookup (l : list value) (lo hi k : nat) :
  k < hi - lo -> slice l lo hi !! k = l !! (lo + k).
Proof.
  intros Hk. unfold slice. by rewrite lookup_take_lt, lookup_drop.
Qed.

Lemma rolling_sum_missing_window (precip : list value) (scale i j : nat) :
  precip !! j = Some NaN -> j <= i < j + scale -> i < length precip ->
  rolling_sum precip scale !! i = Some NaN.
Proof.
  intros Hj Hij Hi.
  destruct (decide (i + 1 < scale)) as [Hwarm|Hfull].
  - by apply rolling_sum_warm_up.
  - destruct (rolling_sum_window precip scale i) as (v & Hv & Heq); [lia..|].
    rewrite (MeteorologicalSimpleFacts.window_sum_missing _ (j - (i + 1 - scale))) in Heq.
    + inversion Heq. subst. exact Hv.
    + rewrite slice_lookup by lia. by replace (i + 1 - scale + (j - (i + 1 - scale))) with j by lia.
Qed.

(** A returned standardized series is missing during the warm-up of the
    rolling window, and a single missing precipitation value makes the
    series missing at that position and at the [scale - 1] positions after
    it. *)
Theorem spi_missing_values_propagate (fit : mle) (sf : special) (precip : list value)
    (scale : nat) (distribution_params : option params) (out : list score) (i : nat) :
  outcome (standardized_precipitation_index fit sf precip scale distribution_params) = Ok out ->
  i < length precip ->
  (i + 1 < scale \/ exists j, precip !! j = Some NaN /\ j <= i < j + scale) ->
  out !! i = Some ScoreNaN.
Proof.
  intros Hout Hi Hwhy. apply spi_outcome_ok in Hout as [p ->].
  assert (Hagg : rolling_sum precip scale !! i = Some NaN).
  { destruct Hwhy as [Hwarm|(j & Hj & Hij)].
    - by apply rolling_sum_warm_up.
    - by apply (rolling_sum_missing_window precip scale i j). }
  rewrite spi_values_lookup. unfold value in *. rewrite Hagg. simpl.
  by rewrite score_of_missing.
Qed.

Lemma spi_missing_values_propagate_witness :
  norm_ppf toy_special
    (gamma_cdf toy_special (rolling_sum [Some 1%Q; Some 2%Q; NaN; Some 4%Q; Some 5%Q] 2)
       (2, 0, 1)%Q) !! 3
  = Some ScoreNaN.
Proof.
  apply (spi_missing_values_propagate failing_mle toy_special
           [Some 1%Q; Some 2%Q; NaN; Some 4%Q; Some 5%Q] 2 (Some (2, 0, 1)%Q) _ 3).
  - reflexivity.
  - simpl. lia.
  - right. exists 2. split; [reflexivity | lia].
Defined.




(** The parts of SPEI: the subtraction, then the body of SPI. *)
Lemma spei_via_subtract (fit : mle) (sf : special) (precip pet : list value) (scale : nat)
    (distribution_params : option params) :
  standardized_precipitation_evapotranspiration_index fit sf precip pet scale distribution_params
  = match np_subtract precip pet with
    | Ok D => standardized_precipitation_index fit sf D scale distribution_params
    | Raise e => Traced [] (Raise e)
    end.
Proof.
  unfold standardized_precipitation_evapotranspiration_index.
  by destruct (np_subtract precip pet).
Qed.

(** Series that cannot be broadcast together make SPEI fail with numpy's
    error before any estimator is consulted; a potential evapotranspiration
    of a single entry is subtracted from every precipitation value. *)
Theorem spei_shapes (fit : mle) (sf : special) (precip pet : list value) (scale : nat)
    (distribution_params : option params) :
  (length precip <> length pet -> length precip <> 1 -> length pet <> 1 ->
   standardized_precipitation_evapotranspiration_index fit sf precip pet scale
     distribution_params = Traced [] (Raise broadcast_error)) /\
  (forall e, pet = [e] -> length precip <> 1 ->
   standardized_precipitation_evapotranspiration_index fit sf precip pet scale
     distribution_params
   = standardized_precipitation_index fit sf (map (fun p => value_sub p e) precip) scale
       distribution_params).
Proof.
  split.
  - intros Hne Hp He. rewrite spei_via_subtract. unfold np_subtract.
    by rewrite CalibrationFacts.np_binary_mismatch.
  - intros e -> Hp. rewrite spei_via_subtract. unfold np_subtract, np_binary.
    by destruct precip as [|x [|x' precip]].
Qed.

Lemma spei_shapes_witness :
  standardized_precipitation_evapotranspiration_index failing_mle toy_special
    [Some 1%Q; Some 2%Q; Some 3%Q] [Some 1%Q; Some 2%Q] 1 None
  = Traced [] (Raise broadcast_error) /\
  standardized_precipitation_evapotranspiration_index failing_mle toy_special
    [Some 1%Q; Some 2%Q; Some 3%Q] [Some 1%Q] 1 None
  = standardized_precipitation_index failing_mle toy_special
      (map (fun p => value_sub p (Some 1%Q)) [Some 1%Q; Some 2%Q; Some 3%Q]) 1 None.
Proof.
  split.
  - by apply (spei_shapes failing_mle toy_special [Some 1%Q; Some 2%Q; Some 3%Q]
                [Some 1%Q; Some 2%Q] 1 None).
  - by apply (spei_shapes failing_mle toy_special [Some 1%Q; Some 2%Q; Some 3%Q]
                [Some 1%Q] 1 None).
Defined.

Lemma rolling_sum_too_short (precip : list value) (scale : nat) :
  length precip < scale -> rolling_sum precip scale = replicate (length precip) NaN.
Proof.
  intros Hlen. apply list_eq. intros i.
  destruct (decide (i < length precip)) as [Hi|Hi].
  - rewrite lookup_replicate_2 by done. apply rolling_sum_warm_up; lia.
  - rewrite !lookup_ge_None_2; [done|rewrite length_replicate; lia|].
    rewrite length_rolling_sum. lia.
Qed.

Lemma dropna_all_missing (n : nat) : dropna (replicate n NaN) = [].
Proof. induction n as [|n IH]; [done|]. exact IH. Qed.

(** A scale longer than the series leaves nothing to standardize: with
    supplied parameters every entry of the result is NaN, and without them
    the estimator is asked to fit the empty sample. *)
Theorem spi_scale_longer_than_series (fit : mle) (sf : special) (precip : list value)
    (scale : nat) (p : params) :
  length precip < scale ->
  standardized_precipitation_index fit sf precip scale (Some p)
  = Traced [] (Ok (replicate (length precip) ScoreNaN)) /\
  calls (standardized_precipitation_index fit sf precip scale None) = [Fit Gamma []].
Proof.
  intros Hlen. split.
  - rewrite spi_supplied, rolling_sum_too_short by done. f_equal. f_equal.
    unfold norm_ppf, gamma_cdf. clear Hlen.
    induction (length precip) as [|n IH]; simpl; [done|].
    rewrite IH. f_equal. apply score_of_missing.
  - rewrite spi_fitted. simpl.
    by rewrite rolling_sum_too_short, dropna_all_missing.
Qed.

Lemma spi_scale_longer_than_series_witness :
  standardized_precipitation_index (constant_mle (2, 0, 1)%Q) toy_special
    [Some 1%Q; Some 2%Q] 3 (Some (2, 0, 1)%Q)
  = Traced [] (Ok (replicate 2 ScoreNaN)) /\
  calls (standardized_precipitation_index (constant_mle (2, 0, 1)%Q) toy_special
           [Some 1%Q; Some 2%Q] 3 None) = [Fit Gamma []].
Proof.
  apply (spi_scale_longer_than_series (constant_mle (2, 0, 1)%Q) toy_special
           [Some 1%Q; Some 2%Q] 3 (2, 0, 1)%Q).
  simpl. lia.
Defined.







(** ** Monotonicity of the scores *)

(** The order of scores: the infinities are the ends, NaN is unordered. *)
Definition score_le (a b : score) : Prop :=
  match a, b with
  | ScoreNaN, _ | _, ScoreNaN => False
  | NegInf, _ => True
  | _, PosInf => True
  | Finite x, Finite y => (x <= y)%Q
  | _, _ => False
  end.

(** What the true special functions satisfy: the incomplete gamma function
    is a probability that does not decrease with its argument, and the
    inverse normal CDF does not decrease on the open unit interval. *)
Definition cdf_kernel_sound (sf : special) (a : Q) : Prop :=
  (forall y, (0 < y)%Q -> (0 <= gammainc sf a y)%Q /\ (gammainc sf a y <= 1)%Q) /\
  (forall y1 y2, (0 < y1)%Q -> (y1 <= y2)%Q -> (gammainc sf a y1 <= gammainc sf a y2)%Q).

Definition ppf_kernel_monotone (sf : special) : Prop :=
  forall q1 q2, (0 < q1)%Q -> (q1 <= q2)%Q -> (q2 < 1)%Q -> (ndtri sf q1 <= ndtri sf q2)%Q.

Lemma gamma_cdf1_monotone (sf : special) (a loc s x1 x2 : Q) :
  (0 < a)%Q -> (0 < s)%Q -> cdf_kernel_sound sf a -> (x1 <= x2)%Q ->
  exists q1 q2,
    gamma_cdf1 sf (a, loc, s) (Some x1) = Some q1 /\
    gamma_cdf1 sf (a, loc, s) (Some x2) = Some q2 /\
    (0 <= q1)%Q /\ (q1 <= q2)%Q /\ (q2 <= 1)%Q.
Proof.
  intros Ha Hs [Hrange Hmono] Hx. unfold gamma_cdf1.
  apply Qlt_bool_iff in Ha as ->. pose proof Hs as Hs'. apply Qlt_bool_iff in Hs' as ->.
  simpl.
  assert (Hy : ((x1 - loc) / s <= (x2 - loc) / s)%Q).
  { unfold Qdiv. apply Qmult_le_compat_r; [lra|].
    apply Qlt_le_weak, Qinv_lt_0_compat, Hs. }
  destruct (Qlt_bool 0 ((x1 - loc) / s)) eqn:E1, (Qlt_bool 0 ((x2 - loc) / s)) eqn:E2.
  - apply Qlt_bool_iff in E1, E2. eexists _, _. repeat split.
    + apply Hrange, E1.
    + by apply Hmono.
    + apply Hrange, E2.
  - apply Qlt_bool_iff in E1.
    assert (E2' : (0 < (x2 - loc) / s)%Q) by lra.
    apply Qlt_bool_iff in E2'. congruence.
  - apply Qlt_bool_iff in E2. eexists _, _. repeat split.
    + lra.
    + apply Hrange, E2.
    + apply Hrange, E2.
  - eexists _, _. repeat split; lra.
Qed.

Lemma norm_ppf1_class (sf : special) (q : Q) :
  (0 <= q)%Q -> (q <= 1)%Q ->
  ((q == 0)%Q /\ norm_ppf1 sf (Some q) = NegInf) \/
  ((0 < q)%Q /\ (q < 1)%Q /\ norm_ppf1 sf (Some q) = Finite (ndtri sf q)) \/
  ((q == 1)%Q /\ norm_ppf1 sf (Some q) = PosInf).
Proof.
  intros H0 H1. destruct (norm_ppf1_cases sf q) as (Hz & Ho & Hb).
  destruct (Q_dec q 0) as [[Hlt|Hgt]|Heq]; [lra| |by left; auto].
  destruct (Q_dec q 1) as [[Hlt1|Hgt1]|Heq1]; [|lra|by right; right; auto].
  right. left. auto.
Qed.

Lemma norm_ppf1_monotone (sf : special) (q1 q2 : Q) :
  ppf_kernel_monotone sf -> (0 <= q1)%Q -> (q1 <= q2)%Q -> (q2 <= 1)%Q ->
  score_le (norm_ppf1 sf (Some q1)) (norm_ppf1 sf (Some q2)).
Proof.
  intros Hmono H0 H12 H1.
  destruct (norm_ppf1_class sf q1) as [[E1 ->]|[(L1 & U1 & ->)|[E1 ->]]]; [lra..| | |];
  destruct (norm_ppf1_class sf q2) as [[E2 ->]|[(L2 & U2 & ->)|[E2 ->]]]; try lra;
    simpl; try done.
  by apply Hmono.
Qed.

(** With valid gamma parameters, and special functions that do not
    decrease, the standardized series is ordered as the aggregated series:
    a position with a larger finite aggregated value never gets a lower
    score. *)
Theorem spi_monotone (fit : mle) (sf : special) (precip : list value) (scale : nat)
    (distribution_params : option params) (a loc s : Q) (out : list score)
    (i j : nat) (xi xj : Q) :
  (0 < a)%Q -> (0 < s)%Q ->
  cdf_kernel_sound sf a -> ppf_kernel_monotone sf ->
  match distribution_params with
  | Some p => p = (a, loc, s)
  | None => fit Gamma (List.filter is_positive (dropna (rolling_sum precip scale)))
            = Ok (a, loc, s)
  end ->
  outcome (standardized_precipitation_index fit sf precip scale distribution_params) = Ok out ->
  rolling_sum precip scale !! i = Some (Some xi) ->
  rolling_sum precip scale !! j = Some (Some xj) ->
  (xi <= xj)%Q ->
  exists zi zj, out !! i = Some zi /\ out !! j = Some zj /\ score_le zi zj.
Proof.
  intros Ha Hs Hcdf Hppf Hp Hout Hi Hj Hx.
  assert (Hout' : out = norm_ppf sf (gamma_cdf sf (rolling_sum precip scale) (a, loc, s))).
  { destruct distribution_params as [p|].
    - subst p. rewrite spi_supplied in Hout. simpl in Hout. by injection Hout as <-.
    - rewrite spi_fitted in Hout. simpl in Hout. rewrite Hp in Hout. by injection Hout as <-. }
  subst out. rewrite !spi_values_lookup. unfold value in *. rewrite Hi, Hj.
  exists (norm_ppf1 sf (gamma_cdf1 sf (a, loc, s) (Some xi))),
         (norm_ppf1 sf (gamma_cdf1 sf (a, loc, s) (Some xj))).
  split; [reflexivity|]. split; [reflexivity|].
  destruct (gamma_cdf1_monotone sf a loc s xi xj Ha Hs Hcdf Hx)
    as (qi & qj & -> & -> & H0 & H12 & H1).
  by apply norm_ppf1_monotone.
Qed.

Lemma toy_cdf_kernel_sound (a : Q) : cdf_kernel_sound toy_special a.
Proof.
  split; simpl.
  - intros y Hy. split.
    + apply Qle_shift_div_l; lra.
    + apply Qle_shift_div_r; lra.
  - intros y1 y2 H1 H12.
    apply Qle_shift_div_r; [lra|].
    assert (E : (y2 / (1 + y2) * (1 + y1) == y2 * (1 + y1) / (1 + y2))%Q)
      by (field; lra).
    rewrite E.
    apply Qle_shift_div_l; [lra|]. nra.
Qed.

Lemma toy_ppf_kernel_monotone : ppf_kernel_monotone toy_special.
Proof. intros q1 q2 H0 H12 H1. simpl. lra. Qed.

Lemma spi_monotone_witness :
  exists zi zj,
    norm_ppf toy_special
      (gamma_cdf toy_special (rolling_sum [Some 1%Q; Some 3%Q; Some 2%Q] 1) (2, 0, 1)%Q) !! 2
    = Some zi /\
    norm_ppf toy_special
      (gamma_cdf toy_special (rolling_sum [Some 1%Q; Some 3%Q; Some 2%Q] 1) (2, 0, 1)%Q) !! 1
    = Some zj /\
    score_le zi zj.
Proof.
  apply (spi_monotone failing_mle toy_special [Some 1%Q; Some 3%Q; Some 2%Q] 1
           (Some (2, 0, 1)%Q) 2 0 1 _ 2 1 (0 + 1 - 1 + 3 - 3 + 2)%Q (0 + 1 - 1 + 3)%Q);
    try reflexivity.
  - apply toy_cdf_kernel_sound.
  - apply toy_ppf_kernel_monotone.
  - discriminate.
Defined.

End StandardizedIndexFacts.

(** * Further properties of the calibration utilities *)

Module CalibrationMoreFacts.
Import CalibrationUtils CalibrationFacts.

Section SelfCalibratedPdsi.
Variable np_sum : array -> B64.float.
Variable nelder_mead : array -> B64.float -> search.
Variable data : gmap string array.
Variable initial_parameters : gmap string B64.float.

(** The series are read in the order target_pdsi, precip, temp,
    soil_moisture, and the first one that is absent ends the call with a
    KeyError that names it, whatever the search and the initial
    parameters. *)
Theorem self_calibrated_pdsi_missing_series :
  (data !! "target_pdsi" = None ->
   self_calibrated_pdsi np_sum nelder_mead data initial_parameters
   = Raise (KeyError "target_pdsi")) /\
  (is_Some (data !! "target_pdsi") -> data !! "precip" = None ->
   self_calibrated_pdsi np_sum nelder_mead data initial_parameters
   = Raise (KeyError "precip")) /\
  (is_Some (data !! "target_pdsi") -> is_Some (data !! "precip") ->
   data !! "temp" = None ->
   self_calibrated_pdsi np_sum nelder_mead data initial_parameters
   = Raise (KeyError "temp")) /\
  (is_Some (data !! "target_pdsi") -> is_Some (data !! "precip") ->
   is_Some (data !! "temp") -> data !! "soil_moisture" = None ->
   self_calibrated_pdsi np_sum nelder_mead data initial_parameters
   = Raise (KeyError "soil_moisture")).
Proof.
  unfold self_calibrated_pdsi, getkey. repeat split.
  - by intros ->.
  - by intros [t ->] ->.
  - by intros [t ->] [p ->] ->.
  - by intros [t ->] [p ->] [te ->] ->.
Qed.

(** Whenever [self_calibrated_pdsi] returns, the returned dictionary has
    exactly the keys 'a', 'b' and 'c', and the returned series is
    [a * precip + b * temp + c * soil_moisture] at those coefficients. *)
Theorem self_calibrated_pdsi_result_consistent (calibrated_pdsi : array)
    (calibrated_params : gmap string B64.float) :
  self_calibrated_pdsi np_sum nelder_mead data initial_parameters
  = Ok (calibrated_pdsi, calibrated_params) ->
  dom calibrated_params = {["a"; "b"; "c"]} /\
  exists a b c precip temp soil_moisture,
    calibrated_params !! "a" = Some a /\
    calibrated_params !! "b" = Some b /\
    calibrated_params !! "c" = Some c /\
    data !! "precip" = Some precip /\
    data !! "temp" = Some temp /\
    data !! "soil_moisture" = Some soil_moisture /\
    (np_binary B64.add (scale_by a precip) (scale_by b temp) ≫=
       fun ab => np_binary B64.add ab (scale_by c soil_moisture))
    = Ok calibrated_pdsi.
Proof.
  unfold self_calibrated_pdsi, getkey.
  destruct (data !! "target_pdsi") as [target|]; [|done].
  destruct (data !! "precip") as [precip|]; [|done].
  destruct (data !! "temp") as [temp|]; [|done].
  destruct (data !! "soil_moisture") as [soil|]; [|done].
  cbn [mbind result_bind].
  destruct (minimize _ _ _) as [x|e]; [|done].
  destruct x as [|a [|b [|c [|d x]]]]; try done.
  cbn [mbind result_bind].
  destruct (np_binary B64.add (scale_by a precip) (scale_by b temp) ≫=
              fun ab => np_binary B64.add ab (scale_by c soil)) as [series|e] eqn:E;
    cbn [mbind result_bind mret result_ret]; [|done].
  intros [= <- <-]. split.
  - rewrite !dom_insert_L, dom_empty_L. set_solver.
  - exists a, b, c, precip, temp, soil.
    rewrite lookup_insert_ne by done. rewrite lookup_insert_ne by done.
    rewrite lookup_insert_eq.
    rewrite lookup_insert_ne by done. rewrite !lookup_insert_eq.
    by repeat split.
Qed.

End SelfCalibratedPdsi.

Lemma self_calibrated_pdsi_missing_series_witness :
  self_calibrated_pdsi sum_left_to_right try_doubling
    (<["precip" := [B64.of_Z 1]]> (<["target_pdsi" := [B64.of_Z 2]]> ∅)) ∅
  = Raise (KeyError "temp").
Proof.
  apply (self_calibrated_pdsi_missing_series sum_left_to_right try_doubling
           (<["precip" := [B64.of_Z 1]]> (<["target_pdsi" := [B64.of_Z 2]]> ∅)) ∅).
  - by eexists.
  - by eexists.
  - reflexivity.
Defined.

Lemma self_calibrated_pdsi_result_consistent_witness :
  dom (<["c" := B64.of_Z 1]> (<["b" := B64.of_Z 1]> (<["a" := B64.of_Z 1]>
         (∅ : gmap string B64.float)))) = {["a"; "b"; "c"]} /\
  exists a b c precip temp soil_moisture,
    (<["c" := B64.of_Z 1]> (<["b" := B64.of_Z 1]> (<["a" := B64.of_Z 1]>
       (∅ : gmap string B64.float)))) !! "a" = Some a /\
    (<["c" := B64.of_Z 1]> (<["b" := B64.of_Z 1]> (<["a" := B64.of_Z 1]>
       (∅ : gmap string B64.float)))) !! "b" = Some b /\
    (<["c" := B64.of_Z 1]> (<["b" := B64.of_Z 1]> (<["a" := B64.of_Z 1]>
       (∅ : gmap string B64.float)))) !! "c" = Some c /\
    (<["soil_moisture" := [B64.of_Z 1; B64.of_Z 2]]>
       (<["temp" := [B64.of_Z 1; B64.of_Z 2]]>
          (<["precip" := [B64.of_Z 1; B64.of_Z 2]]>
             (<["target_pdsi" := [B64.of_Z 3; B64.of_Z 6]]> (∅ : gmap string array)))))
      !! "precip" = Some precip /\
    (<["soil_moisture" := [B64.of_Z 1; B64.of_Z 2]]>
       (<["temp" := [B64.of_Z 1; B64.of_Z 2]]>
          (<["precip" := [B64.of_Z 1; B64.of_Z 2]]>
             (<["target_pdsi" := [B64.of_Z 3; B64.of_Z 6]]> (∅ : gmap string array)))))
      !! "temp" = Some temp /\
    (<["soil_moisture" := [B64.of_Z 1; B64.of_Z 2]]>
       (<["temp" := [B64.of_Z 1; B64.of_Z 2]]>
          (<["precip" := [B64.of_Z 1; B64.of_Z 2]]>
             (<["target_pdsi" := [B64.of_Z 3; B64.of_Z 6]]> (∅ : gmap string array)))))
      !! "soil_moisture" = Some soil_moisture /\
    (np_binary B64.add (scale_by a precip) (scale_by b temp) ≫=
       fun ab => np_binary B64.add ab (scale_by c soil_moisture))
    = Ok [B64.of_Z 3; B64.of_Z 6].
Proof.
  apply (self_calibrated_pdsi_result_consistent sum_left_to_right try_doubling
           (<["soil_moisture" := [B64.of_Z 1; B64.of_Z 2]]>
              (<["temp" := [B64.of_Z 1; B64.of_Z 2]]>
                 (<["precip" := [B64.of_Z 1; B64.of_Z 2]]>
                    (<["target_pdsi" := [B64.of_Z 3; B64.of_Z 6]]> ∅)))) ∅).
  vm_compute. reflexivity.
Defined.

(** An exception that the index function raises at the initial guess
    (1, 1) is the outcome of [calibrate_index]: the first evaluation of the
    objective ends the search, and nothing is caught. *)
Theorem calibrate_index_model_error {X : Type} (np_sum : array -> B64.float)
    (nelder_mead : array -> B64.float -> search) (index_function : @index_fn X)
    (cd : @calibration_data X) (kwargs : gmap string B64.float) (e : exn) :
  index_function (input_data cd) (B64.of_Z 1) (B64.of_Z 1) = Raise e ->
  calibrate_index np_sum nelder_mead index_function cd kwargs = Raise e.
Proof.
  intros Hmodel. unfold calibrate_index.
  rewrite (minimize_first_evaluation _ _ _ e); [done|].
  by rewrite Hmodel.
Qed.

Lemma calibrate_index_model_error_witness :
  calibrate_index sum_left_to_right try_doubling
    (fun (input : array) (a b : B64.float) =>
       match input with
       | [] => Raise (ValueError "empty input")
       | _ => linear_index input a b
       end)
    (CalibrationData [B64.of_Z 1] []) ∅
  = Raise (ValueError "empty input").
Proof.
  apply (calibrate_index_model_error sum_left_to_right try_doubling
           (fun (input : array) (a b : B64.float) =>
              match input with
              | [] => Raise (ValueError "empty input")
              | _ => linear_index input a b
              end)
           (CalibrationData [B64.of_Z 1] []) ∅ (ValueError "empty input")).
  reflexivity.
Defined.

End CalibrationMoreFacts.
